(** * NoiseTorch LADSPA filter: the frame adapter and the voice gate

    A shallow embedding of [c/ladspa/module.c]: the plugin instance
    ([rnnoiseFilter]), its construction, port wiring and the real-time
    [runFilter] callback, which re-frames host blocks of arbitrary length
    into 480-sample frames for the denoiser and gates the denoised frames
    with a grace-period counter.

    Conventions.
    - A C [float] is an IEEE-754 binary32 value ([F32.float]); arithmetic is
      the Standard Library's executable specification of IEEE arithmetic.
    - Host memory is addressed in units of one [LADSPA_Data] (a float), so
      pointer arithmetic [p + i] is addition on addresses.
    - Sample and byte counts are natural numbers.  Every call that does not
      fault keeps them below the ring-buffer capacity (192000 bytes), far
      from the range where the C types [int] and [unsigned long] differ.
    - Undefined behaviour of the C program (null or unbound pointers, a
      breach of the ring-buffer contract) is a [Fault] of the model. *)

From Stdlib Require Import ZArith List Lia Bool Arith PeanoNat.
From Stdlib Require Import Zify ZifyNat.
From Stdlib Require Import Floats.SpecFloat.
From Stdlib Require String.
Import String.StringSyntax.
Delimit Scope string_scope with string.
Import ListNotations.

(** [lia] also decides goals with division and remainder by a constant. *)
Ltac Zify.zify_post_hook ::= Z.div_mod_to_equations.

Set Implicit Arguments.

(* ===================================================================== *)
(** ** Binary32 floats *)
(* ===================================================================== *)

Module F32.

Definition prec : Z := 24.
Definition emax : Z := 128.

Definition float := spec_float.

(** Conversion of a C integer constant to [float]. *)
Definition of_int (z : Z) : float := binary_normalize prec emax z 0 false.

Definition zero : float := S754_zero false.     (* 0.f *)
Definition mul : float -> float -> float := SFmul prec emax.
Definition div : float -> float -> float := SFdiv prec emax.

(** [a > b] of C: false as soon as one side is a NaN. *)
Definition gt (a b : float) : bool := SFltb b a.


End F32.

Definition float : Type := F32.float.

(* ===================================================================== *)
(** ** Faults and the result monad *)
(* ===================================================================== *)

Inductive fault : Type :=
| NullPointer        (* a null ring buffer or engine handle is used *)
| UnboundPort        (* run before connect_port bound the port *)
| RingOverflow       (* push of more bytes than are free *)
| RingUnderflow.     (* pop of more bytes than are used *)

Inductive result (A : Type) : Type :=
| Ok (a : A)
| Fault (e : fault).

Arguments Ok {A} a.
Arguments Fault {A} e.

Definition bind {A B : Type} (r : result A) (k : A -> result B) : result B :=
  match r with
  | Ok a => k a
  | Fault e => Fault e
  end.

Notation "x <- r ;; k" := (bind r (fun x => k))
  (at level 61, r at next level, right associativity).
Notation "' p <- r ;; k" := (bind r (fun x => let p := x in k))
  (at level 61, p pattern, r at next level, right associativity).

(** Dereference of a handle that may be null. *)
Definition deref {A : Type} (p : option A) : result A :=
  match p with
  | Some a => Ok a
  | None => Fault NullPointer
  end.

(** Use of a port pointer that [connect_port] may not have set yet. *)
Definition port {A : Type} (p : option A) : result A :=
  match p with
  | Some a => Ok a
  | None => Fault UnboundPort
  end.

(* ===================================================================== *)
(** ** Constants of module.c *)
(* ===================================================================== *)

Definition SF_INPUT : nat := 0.
Definition SF_OUTPUT : nat := 1.
Definition SF_VAD : nat := 2.

Definition sizeof_float : nat := 4.
Definition FRAMESIZE_NSAMPLES : nat := 480.
Definition FRAMESIZE_BYTES : nat := 480 * sizeof_float.

Definition VAD_GRACE_PERIOD : Z := 20.

(* ===================================================================== *)
(** ** The ring buffer *)
(* ===================================================================== *)

Module Ring.

(** Modelled from the spec: the ring buffer of [c-ringbuf/ringbuf.h], whose
    implementation is not part of the sources at hand.  The spec describes
    a fixed-capacity byte FIFO with push, pop and a used-byte query:
    "push copies exactly len(bytes) into the buffer", "pop(n) copies
    exactly n bytes out", "used() returns current occupancy", with the
    caller-enforced preconditions that a push never exceeds the free
    space and a pop never exceeds the used bytes.  The adapter only moves
    whole floats, so the resident bytes are kept as the sequence of
    resident floats, oldest first, each standing for [sizeof_float]
    bytes.  A breach of a precondition, which the spec leaves undefined,
    is a fault. *)
Record ringbuf_t : Type := {
  rb_capacity : nat;          (* bytes *)
  rb_cells : list float       (* resident floats, oldest first *)
}.

(** Modelled from the spec: construction takes a fixed byte capacity and
    starts empty; the allocation may fail, which yields a null handle. *)
Definition ringbuf_new (alloc_ok : bool) (capacity : nat) : option ringbuf_t :=
  if alloc_ok then Some {| rb_capacity := capacity; rb_cells := [] |}
  else None.

(** Modelled from the spec: "used() returns current occupancy" in bytes. *)
Definition ringbuf_bytes_used (rb : ringbuf_t) : nat :=
  sizeof_float * length (rb_cells rb).

(** Modelled from the spec: the free space that a push may use,
    "capacity - used()". *)
Definition ringbuf_bytes_free (rb : ringbuf_t) : nat :=
  rb_capacity rb - ringbuf_bytes_used rb.

(** Modelled from the spec: push of [sizeof_float * length src] bytes. *)
Definition ringbuf_memcpy_into (rb : ringbuf_t) (src : list float)
  : result ringbuf_t :=
  if sizeof_float * length src <=? ringbuf_bytes_free rb
  then Ok {| rb_capacity := rb_capacity rb; rb_cells := rb_cells rb ++ src |}
  else Fault RingOverflow.

(** Modelled from the spec: pop of [count] bytes, a multiple of
    [sizeof_float] at every call site. *)
Definition ringbuf_memcpy_from (rb : ringbuf_t) (count : nat)
  : result (list float * ringbuf_t) :=
  if count <=? ringbuf_bytes_used rb
  then Ok (firstn (count / sizeof_float) (rb_cells rb),
           {| rb_capacity := rb_capacity rb;
              rb_cells := skipn (count / sizeof_float) (rb_cells rb) |})
  else Fault RingUnderflow.

End Ring.
Export Ring.

(* ===================================================================== *)
(** ** Host memory *)
(* ===================================================================== *)

Definition addr := nat.
Definition memory := addr -> float.

Definition store (m : memory) (a : addr) (v : float) : memory :=
  fun x => if Nat.eqb x a then v else m x.

(** [memcpy] of a float array out of and into host memory. *)
Definition load_n (m : memory) (p : addr) (n : nat) : list float :=
  map (fun i => m (p + i)) (seq 0 n).

Fixpoint store_list (m : memory) (p : addr) (l : list float) : memory :=
  match l with
  | [] => m
  | v :: l' => store_list (store m p v) (S p) l'
  end.

(** [for (int i = 0; i < n; i++) body], on a loop state. *)
Definition for_loop {S : Type} (n : nat) (body : nat -> S -> S) (s : S) : S :=
  fold_left (fun s i => body i s) (seq 0 n) s.

(** The same loop when the body can fault. *)
Definition for_loop_r {S : Type} (n : nat) (body : nat -> S -> result S) (s : S)
  : result S :=
  fold_left (fun r i => s <- r ;; body i s) (seq 0 n) (Ok s).

(* ===================================================================== *)
(** ** The denoiser engine *)
(* ===================================================================== *)

(** The interface of [rnnoise/include/rnnoise.h] that module.c calls.  The
    engine is an opaque collaborator: a state, created once per instance,
    and a frame function [rnnoise_process_frame st out in] that reads
    [FRAMESIZE_NSAMPLES] floats, fills the [FRAMESIZE_NSAMPLES] floats of
    [out], updates the state and returns the speech probability. *)
Record Denoiser : Type := {
  DenoiseState : Type;
  rnnoise_create : DenoiseState;
  rnnoise_process_frame :
    DenoiseState -> list float -> DenoiseState * list float * float;
  rnnoise_frame_length : forall st x,
    length (snd (fst (rnnoise_process_frame st x))) = FRAMESIZE_NSAMPLES
}.

(* ===================================================================== *)
(** ** The plugin instance *)
(* ===================================================================== *)

Section Filter.

Variable E : Denoiser.

(** [struct rnnoiseFilter].  Handles that an allocation may leave null and
    port pointers that stay indeterminate until [connect_port] are
    options. *)
Record rnnoiseFilter : Type := {
  st : option (DenoiseState E);
  in_buf : option ringbuf_t;
  out_buf : option ringbuf_t;
  remaining_grace_period : Z;            (* int32_t *)
  init : Z;
  m_pfVAD : option addr;
  m_pfInput : option addr;
  m_pfOutput : option addr
}.

(** Which of the four allocations of [instantiateSimpleFilter] succeed. *)
Record allocations : Type := {
  alloc_filter : bool;        (* malloc(sizeof(rnnoiseFilter)) *)
  alloc_in_buf : bool;        (* first ringbuf_new *)
  alloc_out_buf : bool;       (* second ringbuf_new *)
  alloc_engine : bool         (* rnnoise_create *)
}.

Definition instantiateSimpleFilter (a : allocations) (SampleRate : N)
  : option rnnoiseFilter :=
  if alloc_filter a then
    Some {| in_buf := ringbuf_new (alloc_in_buf a) (FRAMESIZE_BYTES * 100);
            out_buf := ringbuf_new (alloc_out_buf a) (FRAMESIZE_BYTES * 100);
            init := 0;
            remaining_grace_period := VAD_GRACE_PERIOD;
            st := if alloc_engine a then Some (rnnoise_create E) else None;
            m_pfVAD := None;
            m_pfInput := None;
            m_pfOutput := None |}
  else None.

Definition connectPortToSimpleFilter (psFilter : rnnoiseFilter)
  (Port : nat) (DataLocation : addr) : rnnoiseFilter :=
  match Port with
  | 2 (* SF_VAD *) =>
      {| st := st psFilter; in_buf := in_buf psFilter;
         out_buf := out_buf psFilter;
         remaining_grace_period := remaining_grace_period psFilter;
         init := init psFilter;
         m_pfVAD := Some DataLocation;
         m_pfInput := m_pfInput psFilter;
         m_pfOutput := m_pfOutput psFilter |}
  | 0 (* SF_INPUT *) =>
      {| st := st psFilter; in_buf := in_buf psFilter;
         out_buf := out_buf psFilter;
         remaining_grace_period := remaining_grace_period psFilter;
         init := init psFilter;
         m_pfVAD := m_pfVAD psFilter;
         m_pfInput := Some DataLocation;
         m_pfOutput := m_pfOutput psFilter |}
  | 1 (* SF_OUTPUT *) =>
      {| st := st psFilter; in_buf := in_buf psFilter;
         out_buf := out_buf psFilter;
         remaining_grace_period := remaining_grace_period psFilter;
         init := init psFilter;
         m_pfVAD := m_pfVAD psFilter;
         m_pfInput := m_pfInput psFilter;
         m_pfOutput := Some DataLocation |}
  | _ => psFilter
  end.

(** *** runFilter, lines 100-108: scale, push, pop whole frames *)

(** [in[i] = in[i] * 32767] for [i < n_samples], on the host's buffer. *)
Definition scale_input (m : memory) (inp : addr) (n_samples : nat) : memory :=
  for_loop n_samples
    (fun i m => store m (inp + i) (F32.mul (m (inp + i)) (F32.of_int 32767)))
    m.

(** Pushes the scaled block and pops every whole frame into [tmpin]. *)
Definition feed_input (ib : ringbuf_t) (m : memory) (inp : addr)
  (n_samples : nat) : result (nat * list float * ringbuf_t) :=
  ib1 <- ringbuf_memcpy_into ib (load_n m inp n_samples) ;;
  let n_frames := ringbuf_bytes_used ib1 / FRAMESIZE_BYTES in
  ' (tmpin, ib2) <- ringbuf_memcpy_from ib1 (FRAMESIZE_BYTES * n_frames) ;;
  Ok (n_frames, tmpin, ib2).

(** *** runFilter, lines 110-126: the frame loop *)

(** The 480 floats at [tmpin + i * FRAMESIZE_NSAMPLES]. *)
Definition frame_at (tmpin : list float) (i : nat) : list float :=
  firstn FRAMESIZE_NSAMPLES (skipn (i * FRAMESIZE_NSAMPLES) tmpin).

Definition gate_state : Type := (option (DenoiseState E) * Z * ringbuf_t)%type.

(** One iteration: denoise frame [i], update the grace counter, mute the
    frame once the counter is negative, push the frame.  The decrement is
    guarded by [remaining_grace_period >= 0], so it never leaves the
    [int32_t] range. *)
Definition gate_frame (vad_thresh : float) (tmpin : list float) (i : nat)
  (s : gate_state) : result gate_state :=
  let '(sto, grace, ob) := s in
  st0 <- deref sto ;;
  let '(st1, tmp, vad_prob) := rnnoise_process_frame E st0 (frame_at tmpin i) in
  let grace1 := if F32.gt vad_prob vad_thresh then VAD_GRACE_PERIOD else grace in
  let '(grace2, tmp1) :=
    if (0 <=? grace1)%Z then ((grace1 - 1)%Z, tmp)
    else (grace1, repeat F32.zero FRAMESIZE_NSAMPLES) in
  ob1 <- ringbuf_memcpy_into ob tmp1 ;;
  Ok (Some st1, grace2, ob1).

Definition process_frames (vad_thresh : float) (tmpin : list float)
  (n_frames : nat) (s : gate_state) : result gate_state :=
  for_loop_r n_frames (gate_frame vad_thresh tmpin) s.

(** *** runFilter, lines 128-143: drain to the host and rescale *)

Definition drain_output (ob : ringbuf_t) (m : memory) (out : addr)
  (n_samples : nat) : result (ringbuf_t * memory) :=
  let frames_avail := ringbuf_bytes_used ob / FRAMESIZE_BYTES in
  let samples_avail := frames_avail * FRAMESIZE_NSAMPLES in
  ' (ob1, m1) <-
    (if samples_avail <? n_samples then
       let skip := n_samples - samples_avail in
       let m0 := for_loop skip (fun i m => store m (out + i) F32.zero) m in
       ' (data, ob1) <- ringbuf_memcpy_from ob (samples_avail * sizeof_float) ;;
       Ok (ob1, store_list m0 (out + skip) data)
     else
       ' (data, ob1) <- ringbuf_memcpy_from ob (n_samples * sizeof_float) ;;
       Ok (ob1, store_list m out data)) ;;
  Ok (ob1,
      for_loop n_samples
        (fun i m => store m (out + i) (F32.div (m (out + i)) (F32.of_int 32767)))
        m1).

(** *** runFilter *)

Definition runFilter (psFilter : rnnoiseFilter) (m : memory) (n_samples : nat)
  : result (rnnoiseFilter * memory) :=
  inp <- port (m_pfInput psFilter) ;;
  out <- port (m_pfOutput psFilter) ;;
  vad <- port (m_pfVAD psFilter) ;;
  let vad_thresh := F32.div (m vad) (F32.of_int 100) in
  let m1 := scale_input m inp n_samples in
  ib <- deref (in_buf psFilter) ;;
  ' (n_frames, tmpin, ib1) <- feed_input ib m1 inp n_samples ;;
  ob <- deref (out_buf psFilter) ;;
  ' (st1, grace1, ob1) <-
    process_frames vad_thresh tmpin n_frames
      (st psFilter, remaining_grace_period psFilter, ob) ;;
  ' (ob2, m2) <- drain_output ob1 m1 out n_samples ;;
  Ok ({| st := st1;
         in_buf := Some ib1;
         out_buf := Some ob2;
         remaining_grace_period := grace1;
         init := init psFilter;
         m_pfVAD := m_pfVAD psFilter;
         m_pfInput := m_pfInput psFilter;
         m_pfOutput := m_pfOutput psFilter |},
      m2).

End Filter.

Arguments instantiateSimpleFilter E a SampleRate : clear implicits.

(* ===================================================================== *)
(** ** Observations used by the statements *)
(* ===================================================================== *)

Section Observations.

Variable E : Denoiser.

(** The engine state before frame [k] of [tmpin], the denoised frame and
    the speech probability that the engine returns for frame [k]. *)
Fixpoint engine_state (st0 : DenoiseState E) (tmpin : list float) (k : nat)
  : DenoiseState E :=
  match k with
  | 0 => st0
  | S k' =>
      fst (fst (rnnoise_process_frame E (engine_state st0 tmpin k')
                  (frame_at tmpin k')))
  end.

Definition denoised (st0 : DenoiseState E) (tmpin : list float) (k : nat)
  : list float :=
  snd (fst (rnnoise_process_frame E (engine_state st0 tmpin k)
              (frame_at tmpin k))).

Definition speech_prob (st0 : DenoiseState E) (tmpin : list float) (k : nat)
  : float :=
  snd (rnnoise_process_frame E (engine_state st0 tmpin k) (frame_at tmpin k)).

(** The [k]-th frame that was pushed onto [ob] to reach [ob']. *)
Definition emitted (ob ob' : ringbuf_t) (k : nat) : list float :=
  firstn FRAMESIZE_NSAMPLES
    (skipn (length (rb_cells ob) + k * FRAMESIZE_NSAMPLES) (rb_cells ob')).

Definition silence : list float := repeat F32.zero FRAMESIZE_NSAMPLES.

(** An instance that [runFilter] can be called on: every handle is valid
    and the three ports are connected. *)
Definition wired (f : rnnoiseFilter E) : bool :=
  match st f, in_buf f, out_buf f, m_pfVAD f, m_pfInput f, m_pfOutput f with
  | Some _, Some _, Some _, Some _, Some _, Some _ => true
  | _, _, _, _, _, _ => false
  end.

(** Bytes resident in the two ring buffers of an instance (0 for a null
    handle). *)
Definition in_bytes (f : rnnoiseFilter E) : nat :=
  match in_buf f with Some rb => ringbuf_bytes_used rb | None => 0 end.

Definition out_bytes (f : rnnoiseFilter E) : nat :=
  match out_buf f with Some rb => ringbuf_bytes_used rb | None => 0 end.

End Observations.

(* ===================================================================== *)
(** ** A host driving instances *)
(* ===================================================================== *)

Section Host.

Variable E : Denoiser.

Definition handle := nat.

(** The host's view: its memory and the instances it has created. *)
Record world : Type := {
  instances : handle -> option (rnnoiseFilter E);
  mem : memory
}.

(** One real-time callback on instance [h]: the host writes the control
    value and the block of input samples where the instance's ports point,
    calls [run] with the block length, and reads the output block back. *)
Record call : Type := {
  call_handle : handle;
  call_vad : float;
  call_input : list float
}.

Definition set_instance (w : handle -> option (rnnoiseFilter E)) (h : handle)
  (f : rnnoiseFilter E) : handle -> option (rnnoiseFilter E) :=
  fun x => if Nat.eqb x h then Some f else w x.

Definition host_call (w : world) (c : call) : result (world * list float) :=
  f <- deref (instances w (call_handle c)) ;;
  inp <- port (m_pfInput f) ;;
  out <- port (m_pfOutput f) ;;
  vad <- port (m_pfVAD f) ;;
  let n_samples := length (call_input c) in
  let m0 := store (store_list (mem w) inp (call_input c)) vad (call_vad c) in
  ' (f1, m1) <- runFilter f m0 n_samples ;;
  Ok ({| instances := set_instance (instances w) (call_handle c) f1;
         mem := m1 |},
      load_n m1 out n_samples).

(** A sequence of callbacks; the outputs are tagged with their instance. *)
Fixpoint host_calls (w : world) (cs : list call)
  : result (world * list (handle * list float)) :=
  match cs with
  | [] => Ok (w, [])
  | c :: cs' =>
      ' (w1, o) <- host_call w c ;;
      ' (w2, os) <- host_calls w1 cs' ;;
      Ok (w2, (call_handle c, o) :: os)
  end.

(** The calls, and the outputs, that belong to instance [h]. *)
Definition calls_of (h : handle) (cs : list call) : list call :=
  filter (fun c => Nat.eqb (call_handle c) h) cs.

Definition outputs_of (h : handle) (os : list (handle * list float))
  : list (list float) :=
  map snd (filter (fun o => Nat.eqb (fst o) h) os).

End Host.

(* ===================================================================== *)
(** ** A small engine to run the model on *)
(* ===================================================================== *)

(** Pads or cuts a block to one frame. *)
Definition one_frame (x : list float) : list float :=
  firstn FRAMESIZE_NSAMPLES (x ++ silence).

(** An engine that counts its frames, returns the frame it was given and
    reports the first sample of the frame as the speech probability. *)
Definition echo_engine : Denoiser.
Proof.
  refine {| DenoiseState := nat;
            rnnoise_create := 0;
            rnnoise_process_frame :=
              fun n x => (S n, one_frame x, hd F32.zero x) |}.
  intros n x. cbn [fst snd]. unfold one_frame, silence.
  rewrite length_firstn, length_app, repeat_length. lia.
Defined.

Definition all_ok : allocations :=
  {| alloc_filter := true; alloc_in_buf := true;
     alloc_out_buf := true; alloc_engine := true |}.

(** The gate as a function of the frame index: the counter after [k]
    frames of one call, read off [gate_frame], and whether frame [k] is
    passed on. *)
Section GateTrace.

Variable E : Denoiser.
Variable vad_thresh : float.
Variable st0 : DenoiseState E.
Variable tmpin : list float.
Variable grace0 : Z.

Definition reopen (grace : Z) (k : nat) : Z :=
  if F32.gt (speech_prob E st0 tmpin k) vad_thresh
  then VAD_GRACE_PERIOD else grace.

Fixpoint grace_after (k : nat) : Z :=
  match k with
  | 0 => grace0
  | S k' =>
      let g := reopen (grace_after k') k' in
      if (0 <=? g)%Z then (g - 1)%Z else g
  end.

Definition passes (k : nat) : bool := (0 <=? reopen (grace_after k) k)%Z.

Definition gated (k : nat) : list float :=
  if passes k then denoised E st0 tmpin k else silence.

End GateTrace.

(** An engine that also records every frame it is called on. *)
Definition recording (E : Denoiser) : Denoiser.
Proof.
  refine {| DenoiseState := DenoiseState E * list (list float);
            rnnoise_create := (rnnoise_create E, []);
            rnnoise_process_frame :=
              fun s x =>
                let r := rnnoise_process_frame E (fst s) x in
                ((fst (fst r), snd s ++ [x]), snd (fst r), snd r) |}.
  intros s x. cbn [fst snd]. apply rnnoise_frame_length.
Defined.

(** The frames recorded so far by an instance over [recording E]. *)
Definition recorded (E : Denoiser) (f : rnnoiseFilter (recording E))
  : list (list float) :=
  match st f with Some s => snd s | None => [] end.

(** Samples that the drain phase may hand out: whole frames only. *)
Definition samples_avail (ob : ringbuf_t) : nat :=
  ringbuf_bytes_used ob / FRAMESIZE_BYTES * FRAMESIZE_NSAMPLES.

Section Reach.

Variable E : Denoiser.

(** Whole frames that a call of [n_samples] completes. *)
Definition frames_ready (f : rnnoiseFilter E) (n_samples : nat) : nat :=
  (in_bytes f + sizeof_float * n_samples) / FRAMESIZE_BYTES.

(** A call of [n_samples] respects the instance: it is wired, the block
    fits into the input ring buffer and the frames that it completes fit
    into the output ring buffer. *)
Definition can_run (f : rnnoiseFilter E) (n_samples : nat) : Prop :=
  wired f = true /\
  match in_buf f, out_buf f with
  | Some ib, Some ob =>
      sizeof_float * n_samples <= ringbuf_bytes_free ib /\
      frames_ready f n_samples * FRAMESIZE_BYTES <= ringbuf_bytes_free ob
  | _, _ => False
  end.

(** The states an instance goes through: the host connects ports and calls
    [run] with any block length on any memory, in any order. *)
Inductive reachable (f0 : rnnoiseFilter E) : rnnoiseFilter E -> Prop :=
| reach_start : reachable f0 f0
| reach_connect (f : rnnoiseFilter E) (Port : nat) (DataLocation : addr) :
    reachable f0 f ->
    reachable f0 (connectPortToSimpleFilter f Port DataLocation)
| reach_run (f f' : rnnoiseFilter E) (m m' : memory) (n_samples : nat) :
    reachable f0 f ->
    runFilter f m n_samples = Ok (f', m') ->
    reachable f0 f'.

(** What every state of a wired instance satisfies: valid handles, bound
    ports, ring buffers of the capacity asked for at construction, and a
    backlog below two frames. *)
Definition healthy (f : rnnoiseFilter E) : Prop :=
  wired f = true /\
  (exists ib ob,
      in_buf f = Some ib /\ out_buf f = Some ob /\
      rb_capacity ib = FRAMESIZE_BYTES * 100 /\
      rb_capacity ob = FRAMESIZE_BYTES * 100) /\
  in_bytes f + out_bytes f < 2 * FRAMESIZE_BYTES.

End Reach.

(* ===================================================================== *)
(** ** Concrete inputs for the examples *)
(* ===================================================================== *)

(** An empty ring buffer of the size that [instantiateSimpleFilter] asks
    for. *)
Definition empty_ring : ringbuf_t :=
  {| rb_capacity := FRAMESIZE_BYTES * 100; rb_cells := [] |}.

(** The threshold of the control value 50. *)
Definition half : float := F32.div (F32.of_int 50) (F32.of_int 100).

(** One frame that the echo engine reports as speech, then 25 frames of
    zeros, which it reports with probability 0. *)
Definition burst_then_quiet : list float :=
  (F32.of_int 1 :: repeat F32.zero 479) ++ repeat F32.zero (25 * 480).

(** The instance that [instantiateSimpleFilter] returns when every
    allocation succeeds. *)
Definition new_instance (E : Denoiser) : rnnoiseFilter E :=
  {| st := Some (rnnoise_create E);
     in_buf := Some empty_ring;
     out_buf := Some empty_ring;
     remaining_grace_period := VAD_GRACE_PERIOD;
     init := 0;
     m_pfVAD := None;
     m_pfInput := None;
     m_pfOutput := None |}.

(** A new instance with its ports connected: control value at address 0,
    input block at [inp], output block at [out]. *)
Definition wired_instance (E : Denoiser) (inp out : addr) : rnnoiseFilter E :=
  connectPortToSimpleFilter
    (connectPortToSimpleFilter
       (connectPortToSimpleFilter (new_instance E) SF_VAD 0) SF_INPUT inp)
    SF_OUTPUT out.

(** Host memory with the control value 50 at address 0 and [x] in the
    cells at [p], [p + 1], ... [p + n - 1]; 0 elsewhere. *)
Definition block_memory (p n : nat) (x : float) : memory :=
  fun a =>
    if Nat.eqb a 0 then F32.of_int 50
    else if (p <=? a) && (a <? p + n) then x
    else F32.zero.

(** The value of a memory cell, and an instance, after a call. *)
Definition cell_after (E : Denoiser) (r : result (rnnoiseFilter E * memory))
  (a : addr) : option float :=
  match r with
  | Ok (_, m) => Some (m a)
  | Fault _ => None
  end.

(** A host with one instance, at handle 0, whose input block starts at
    address 1 and whose output block starts at address 101, and zeroed
    memory. *)
Definition one_instance_world (E : Denoiser) : world E :=
  {| instances :=
       fun h => if Nat.eqb h 0 then Some (wired_instance E 1 101) else None;
     mem := fun _ => F32.zero |}.

(** A callback on instance 0 with the control value 50 and a block of 100
    samples of value 1. *)
Definition call_100 : call :=
  {| call_handle := 0;
     call_vad := F32.of_int 50;
     call_input := repeat (F32.of_int 1) 100 |}.

(** Bytes resident in the input and in the output ring buffer of instance
    [h] after a sequence of callbacks. *)
Definition backlog_after (E : Denoiser)
  (r : result (world E * list (handle * list float))) (h : handle)
  : option (nat * nat) :=
  match r with
  | Ok (w, _) =>
      match instances w h with
      | Some f => Some (in_bytes f, out_bytes f)
      | None => None
      end
  | Fault _ => None
  end.

(** An allocation outcome: the instance itself is allocated, its input
    ring buffer is not. *)
Definition no_input_ring : allocations :=
  {| alloc_filter := true; alloc_in_buf := false;
     alloc_out_buf := true; alloc_engine := true |}.

(** A host with two instances, at handles 0 and 1, on separate blocks. *)
Definition two_instance_world (E : Denoiser) : world E :=
  {| instances :=
       fun h =>
         if Nat.eqb h 0 then Some (wired_instance E 1 101)
         else if Nat.eqb h 1 then Some (wired_instance E 201 301)
         else None;
     mem := fun _ => F32.zero |}.

(** Three callbacks: on instance 0, on instance 1, on instance 0 again. *)
Definition interleaved : list call :=
  [ {| call_handle := 0; call_vad := F32.of_int 50;
       call_input := [F32.of_int 1; F32.of_int 2] |};
    {| call_handle := 1; call_vad := F32.of_int 10;
       call_input := [F32.of_int 3; F32.of_int 4; F32.of_int 5] |};
    {| call_handle := 0; call_vad := F32.of_int 50;
       call_input := [F32.of_int 6; F32.of_int 7] |} ].

(** The world and the outputs that a sequence of callbacks ends with. *)
Definition world_after (E : Denoiser) (w0 : world E)
  (r : result (world E * list (handle * list float))) : world E :=
  match r with
  | Ok (w, _) => w
  | Fault _ => w0
  end.

Definition outputs_after (E : Denoiser)
  (r : result (world E * list (handle * list float)))
  : list (handle * list float) :=
  match r with
  | Ok (_, os) => os
  | Fault _ => []
  end.

Definition is_ok (A : Type) (r : result A) : bool :=
  match r with
  | Ok _ => true
  | Fault _ => false
  end.

(** The instance and the memory that a call ends with. *)
Definition instance_after (E : Denoiser) (f0 : rnnoiseFilter E)
  (r : result (rnnoiseFilter E * memory)) : rnnoiseFilter E :=
  match r with
  | Ok (f, _) => f
  | Fault _ => f0
  end.

Definition memory_after (E : Denoiser) (m0 : memory)
  (r : result (rnnoiseFilter E * memory)) : memory :=
  match r with
  | Ok (_, m) => m
  | Fault _ => m0
  end.

(** The counter that a frame, or a frame loop, leaves behind. *)
Definition counter_after (E : Denoiser) (r : result (gate_state E))
  : option Z :=
  match r with
  | Ok (_, g, _) => Some g
  | Fault _ => None
  end.

(** Two instances in the same audio state: the same engine state, ring
    buffers and grace counter; their ports may point anywhere. *)
Definition same_audio_state (E : Denoiser) (f f2 : rnnoiseFilter E) : Prop :=
  st f2 = st f /\ in_buf f2 = in_buf f /\ out_buf f2 = out_buf f /\
  remaining_grace_period f2 = remaining_grace_period f.

Section Histories.

Variable E : Denoiser.

(** The zero samples that a call of [n_samples] puts in front of its
    output: [skip = n_samples - samples_avail] of line 132 when
    [samples_avail < n_samples], and none otherwise.  [samples_avail] is
    taken from the output ring buffer after the frames of the call were
    pushed. *)
Definition call_padding (f : rnnoiseFilter E) (n_samples : nat) : nat :=
  n_samples
  - (out_bytes f + frames_ready f n_samples * FRAMESIZE_BYTES)
    / FRAMESIZE_BYTES * FRAMESIZE_NSAMPLES.

(** [padded f0 z f]: the instance went from [f0] to [f], and the calls on
    the way put [z] zero samples of padding in front of their outputs. *)
Inductive padded (f0 : rnnoiseFilter E) : nat -> rnnoiseFilter E -> Prop :=
| padded_start : padded f0 0 f0
| padded_connect (z : nat) (f : rnnoiseFilter E) (Port : nat)
    (DataLocation : addr) :
    padded f0 z f ->
    padded f0 z (connectPortToSimpleFilter f Port DataLocation)
| padded_run (z : nat) (f f' : rnnoiseFilter E) (m m' : memory)
    (n_samples : nat) :
    padded f0 z f ->
    runFilter f m n_samples = Ok (f', m') ->
    padded f0 (z + call_padding f n_samples) f'.

(** [fed f0 xs f]: the instance went from [f0] to [f], and [xs] are the
    input samples of the calls on the way, as the host had them in the
    input blocks, in order. *)
Inductive fed (f0 : rnnoiseFilter E) : list float -> rnnoiseFilter E -> Prop :=
| fed_start : fed f0 [] f0
| fed_connect (xs : list float) (f : rnnoiseFilter E) (Port : nat)
    (DataLocation : addr) :
    fed f0 xs f ->
    fed f0 xs (connectPortToSimpleFilter f Port DataLocation)
| fed_run (xs : list float) (f f' : rnnoiseFilter E) (m m' : memory)
    (n_samples : nat) (inp : addr) :
    fed f0 xs f ->
    m_pfInput f = Some inp ->
    runFilter f m n_samples = Ok (f', m') ->
    fed f0 (xs ++ load_n m inp n_samples) f'.

(** The floats waiting in the input ring buffer. *)
Definition in_cells (f : rnnoiseFilter E) : list float :=
  match in_buf f with Some rb => rb_cells rb | None => [] end.

End Histories.

(* ===================================================================== *)
(** ** The plugin descriptor: load, lookup, unload *)
(* ===================================================================== *)

Module Loader.

(** The flags of ladspa.h that module.c combines with [|].  The header is
    not among the sources; a combination of flags is kept as the list of
    the flags combined, [0] as the empty list. *)
Inductive port_flag : Type :=
| LADSPA_PORT_INPUT | LADSPA_PORT_OUTPUT
| LADSPA_PORT_CONTROL | LADSPA_PORT_AUDIO.

Inductive hint_flag : Type :=
| LADSPA_HINT_BOUNDED_BELOW | LADSPA_HINT_BOUNDED_ABOVE.

Inductive property_flag : Type :=
| LADSPA_PROPERTY_HARD_RT_CAPABLE.

(** The functions of module.c that the descriptor points to. *)
Inductive entry : Type :=
| instantiate_entry | connect_port_entry | activate_entry
| run_entry | cleanup_entry.

Definition ptr := nat.

(** [LADSPA_PortRangeHint]. *)
Record range_hint : Type := {
  HintDescriptor : list hint_flag;
  LowerBound : float;
  UpperBound : float
}.

(** [LADSPA_Descriptor]; a pointer field is [None] when it is null. *)
Record descriptor : Type := {
  UniqueID : Z;
  Label : option ptr;
  Properties : list property_flag;
  Name : option ptr;
  Maker : option ptr;
  Copyright : option ptr;
  PortCount : nat;
  PortDescriptors : option ptr;
  PortNames : option ptr;
  PortRangeHints : option ptr;
  instantiate : option entry;
  connect_port : option entry;
  activate : option entry;
  run : option entry;
  run_adding : option entry;
  set_run_adding_gain : option entry;
  deactivate : option entry;
  cleanup : option entry
}.

(** What an allocated block holds. *)
Inductive block : Type :=
| Chars (s : String.string)                              (* strdup *)
| PortDescriptorArray (l : list (list port_flag)) (* calloc *)
| PortNameArray (l : list (option ptr))           (* calloc *)
| RangeHintArray (l : list range_hint)            (* calloc *)
| DescriptorBlock (d : option descriptor).        (* malloc; None: not
                                                     written yet *)

(** The blocks that the module has allocated and not freed, the next fresh
    address, and the static variable [g_psDescriptor]. *)
Record machine : Type := {
  heap : list (ptr * block);
  brk : ptr;
  g_psDescriptor : option ptr
}.

Inductive crash : Type :=
| NullDereference      (* access through a null pointer *)
| InvalidPointer       (* access to, or free of, a block that is not live *)
| OutOfBounds.         (* index outside an array *)

Inductive outcome (A : Type) : Type :=
| Done (a : A)
| Crash (e : crash).

Arguments Done {A} a.
Arguments Crash {A} e.

Definition M (A : Type) : Type := machine -> outcome (A * machine).

Definition ret {A : Type} (a : A) : M A := fun mc => Done (a, mc).

Definition seq_bind {A B : Type} (c : M A) (k : A -> M B) : M B :=
  fun mc =>
    match c mc with
    | Done (a, mc') => k a mc'
    | Crash e => Crash e
    end.

Notation "x <~ c ;; k" := (seq_bind c (fun x => k))
  (at level 61, c at next level, right associativity).
Notation "c ;;; k" := (seq_bind c (fun _ => k))
  (at level 61, right associativity).

Fixpoint lookup (p : ptr) (h : list (ptr * block)) : option block :=
  match h with
  | [] => None
  | (q, b) :: h' => if Nat.eqb q p then Some b else lookup p h'
  end.

Fixpoint remove (p : ptr) (h : list (ptr * block)) : list (ptr * block) :=
  match h with
  | [] => []
  | (q, b) :: h' => if Nat.eqb q p then remove p h' else (q, b) :: remove p h'
  end.

Fixpoint replace (p : ptr) (b : block) (h : list (ptr * block))
  : list (ptr * block) :=
  match h with
  | [] => []
  | (q, c) :: h' =>
      if Nat.eqb q p then (q, b) :: h' else (q, c) :: replace p b h'
  end.

(** [malloc], [calloc] and [strdup]: a fresh block with the given first
    contents, or null when the allocation fails. *)
Definition allocate (ok : bool) (b : block) : M (option ptr) :=
  fun mc =>
    if ok then
      Done (Some (brk mc),
            {| heap := (brk mc, b) :: heap mc;
               brk := S (brk mc);
               g_psDescriptor := g_psDescriptor mc |})
    else Done (None, mc).

(** [free]: nothing for a null pointer. *)
Definition free (p : option ptr) : M unit :=
  fun mc =>
    match p with
    | None => Done (tt, mc)
    | Some q =>
        match lookup q (heap mc) with
        | Some _ =>
            Done (tt, {| heap := remove q (heap mc);
                         brk := brk mc;
                         g_psDescriptor := g_psDescriptor mc |})
        | None => Crash InvalidPointer
        end
    end.

Definition read (p : option ptr) : M block :=
  fun mc =>
    match p with
    | None => Crash NullDereference
    | Some q =>
        match lookup q (heap mc) with
        | Some b => Done (b, mc)
        | None => Crash InvalidPointer
        end
    end.

Definition write (p : option ptr) (b : block) : M unit :=
  fun mc =>
    match p with
    | None => Crash NullDereference
    | Some q =>
        match lookup q (heap mc) with
        | Some _ =>
            Done (tt, {| heap := replace q b (heap mc);
                         brk := brk mc;
                         g_psDescriptor := g_psDescriptor mc |})
        | None => Crash InvalidPointer
        end
    end.

Definition fail {A : Type} (e : crash) : M A := fun _ => Crash e.

Fixpoint set_nth {A : Type} (i : nat) (x : A) (l : list A) : option (list A) :=
  match l, i with
  | [], _ => None
  | _ :: l', 0 => Some (x :: l')
  | y :: l', S i' =>
      match set_nth i' x l' with
      | Some r => Some (y :: r)
      | None => None
      end
  end.

(** [piPortDescriptors[i] = v]. *)
Definition set_port_descriptor (p : option ptr) (i : nat) (v : list port_flag)
  : M unit :=
  b <~ read p ;;
  match b with
  | PortDescriptorArray l =>
      match set_nth i v l with
      | Some l' => write p (PortDescriptorArray l')
      | None => fail OutOfBounds
      end
  | _ => fail InvalidPointer
  end.

(** [pcPortNames[i] = v]. *)
Definition set_port_name (p : option ptr) (i : nat) (v : option ptr) : M unit :=
  b <~ read p ;;
  match b with
  | PortNameArray l =>
      match set_nth i v l with
      | Some l' => write p (PortNameArray l')
      | None => fail OutOfBounds
      end
  | _ => fail InvalidPointer
  end.

(** [psPortRangeHints[i]] updated by [upd]. *)
Definition set_range_hint (p : option ptr) (i : nat)
  (upd : range_hint -> range_hint) : M unit :=
  b <~ read p ;;
  match b with
  | RangeHintArray l =>
      match nth_error l i with
      | Some old =>
          match set_nth i (upd old) l with
          | Some l' => write p (RangeHintArray l')
          | None => fail OutOfBounds
          end
      | None => fail OutOfBounds
      end
  | _ => fail InvalidPointer
  end.

Definition set_g_psDescriptor (p : option ptr) : M unit :=
  fun mc =>
    Done (tt, {| heap := heap mc; brk := brk mc; g_psDescriptor := p |}).

Definition get_g_psDescriptor : M (option ptr) :=
  fun mc => Done (g_psDescriptor mc, mc).

(** Which of the eleven allocations of the load routine succeed, in the
    order in which they are made. *)
Record load_allocations : Type := {
  a_descriptor : bool;          (* malloc(sizeof(LADSPA_Descriptor)) *)
  a_label : bool;               (* strdup("nt-filter") *)
  a_name : bool;                (* strdup("nt-filter rnnoise ladspa module") *)
  a_maker : bool;               (* strdup("nt-org") *)
  a_copyright : bool;           (* strdup("GPL3+") *)
  a_port_descriptors : bool;    (* calloc(3, sizeof(LADSPA_PortDescriptor)) *)
  a_port_names : bool;          (* calloc(3, sizeof(char * )) *)
  a_name_vad : bool;            (* strdup("VAD %%") *)
  a_name_input : bool;          (* strdup("Input") *)
  a_name_output : bool;         (* strdup("Output") *)
  a_range_hints : bool          (* calloc(3, sizeof(LADSPA_PortRangeHint)) *)
}.

Definition zero_hint : range_hint :=
  {| HintDescriptor := []; LowerBound := F32.zero; UpperBound := F32.zero |}.

(** [ON_LOAD_ROUTINE], lines 156-204.  Allocations and array writes are in
    the order of the source.  The assignments to the fields of
    [*g_psDescriptor], which nothing reads before the routine ends, are
    made in one write of the whole struct at the end. *)
Definition init (a : load_allocations) : M unit :=
  d <~ allocate (a_descriptor a) (DescriptorBlock None) ;;
  set_g_psDescriptor d ;;;
  match d with
  | None => ret tt
  | Some _ =>
      label <~ allocate (a_label a) (Chars "nt-filter"%string) ;;
      name <~
        allocate (a_name a) (Chars "nt-filter rnnoise ladspa module"%string) ;;
      maker <~ allocate (a_maker a) (Chars "nt-org"%string) ;;
      copyright <~ allocate (a_copyright a) (Chars "GPL3+"%string) ;;
      piPortDescriptors <~
        allocate (a_port_descriptors a) (PortDescriptorArray [[]; []; []]) ;;
      set_port_descriptor piPortDescriptors SF_VAD
        [LADSPA_PORT_INPUT; LADSPA_PORT_CONTROL] ;;;
      set_port_descriptor piPortDescriptors SF_INPUT
        [LADSPA_PORT_INPUT; LADSPA_PORT_AUDIO] ;;;
      set_port_descriptor piPortDescriptors SF_OUTPUT
        [LADSPA_PORT_OUTPUT; LADSPA_PORT_AUDIO] ;;;
      pcPortNames <~
        allocate (a_port_names a) (PortNameArray [None; None; None]) ;;
      n_vad <~ allocate (a_name_vad a) (Chars "VAD %%"%string) ;;
      set_port_name pcPortNames SF_VAD n_vad ;;;
      n_input <~ allocate (a_name_input a) (Chars "Input"%string) ;;
      set_port_name pcPortNames SF_INPUT n_input ;;;
      n_output <~ allocate (a_name_output a) (Chars "Output"%string) ;;
      set_port_name pcPortNames SF_OUTPUT n_output ;;;
      psPortRangeHints <~
        allocate (a_range_hints a)
          (RangeHintArray [zero_hint; zero_hint; zero_hint]) ;;
      set_range_hint psPortRangeHints SF_VAD
        (fun h => {| HintDescriptor :=
                       [LADSPA_HINT_BOUNDED_BELOW; LADSPA_HINT_BOUNDED_ABOVE];
                     LowerBound := LowerBound h;
                     UpperBound := UpperBound h |}) ;;;
      set_range_hint psPortRangeHints SF_VAD
        (fun h => {| HintDescriptor := HintDescriptor h;
                     LowerBound := F32.of_int 0;
                     UpperBound := UpperBound h |}) ;;;
      set_range_hint psPortRangeHints SF_VAD
        (fun h => {| HintDescriptor := HintDescriptor h;
                     LowerBound := LowerBound h;
                     UpperBound := F32.of_int 95 |}) ;;;
      set_range_hint psPortRangeHints SF_INPUT
        (fun h => {| HintDescriptor := [];
                     LowerBound := LowerBound h;
                     UpperBound := UpperBound h |}) ;;;
      set_range_hint psPortRangeHints SF_OUTPUT
        (fun h => {| HintDescriptor := [];
                     LowerBound := LowerBound h;
                     UpperBound := UpperBound h |}) ;;;
      write d
        (DescriptorBlock
           (Some {| UniqueID := 16682994;
                    Label := label;
                    Properties := [LADSPA_PROPERTY_HARD_RT_CAPABLE];
                    Name := name;
                    Maker := maker;
                    Copyright := copyright;
                    PortCount := 3;
                    PortDescriptors := piPortDescriptors;
                    PortNames := pcPortNames;
                    PortRangeHints := psPortRangeHints;
                    instantiate := Some instantiate_entry;
                    connect_port := Some connect_port_entry;
                    activate := Some activate_entry;
                    run := Some run_entry;
                    run_adding := None;
                    set_run_adding_gain := None;
                    deactivate := None;
                    cleanup := Some cleanup_entry |}))
  end.

(** [free((char * )(psDescriptor->PortNames[lIndex]))] for
    [lIndex = from, from + 1, ...], [count] times. *)
Fixpoint free_port_names (names : option ptr) (from count : nat) : M unit :=
  match count with
  | 0 => ret tt
  | S count' =>
      b <~ read names ;;
      match b with
      | PortNameArray l =>
          match nth_error l from with
          | Some p => free p ;;; free_port_names names (S from) count'
          | None => fail OutOfBounds
          end
      | _ => fail InvalidPointer
      end
  end.

(** [deleteDescriptor], lines 206-220. *)
Definition deleteDescriptor (psDescriptor : option ptr) : M unit :=
  match psDescriptor with
  | None => ret tt
  | Some _ =>
      b <~ read psDescriptor ;;
      match b with
      | DescriptorBlock (Some d) =>
          free (Label d) ;;;
          free (Name d) ;;;
          free (Maker d) ;;;
          free (Copyright d) ;;;
          free (PortDescriptors d) ;;;
          free_port_names (PortNames d) 0 (PortCount d) ;;;
          free (PortNames d) ;;;
          free (PortRangeHints d) ;;;
          free psDescriptor
      | _ => fail InvalidPointer
      end
  end.

(** [ON_UNLOAD_ROUTINE], line 222. *)
Definition fini : M unit :=
  p <~ get_g_psDescriptor ;;
  deleteDescriptor p.

(** [ladspa_descriptor], lines 224-233. *)
Definition ladspa_descriptor (Index : nat) (mc : machine) : option ptr :=
  match Index with
  | 0 => g_psDescriptor mc
  | _ => None
  end.

(** The machine when the library is loaded: nothing allocated by the
    module, [g_psDescriptor] null by its initialiser.  Blocks are numbered
    in the order in which they are allocated; the code compares a pointer
    only with null and does no arithmetic across blocks. *)
Definition at_load : machine :=
  {| heap := []; brk := 0; g_psDescriptor := None |}.

(** The descriptor struct that [ladspa_descriptor 0] points to. *)
Definition the_descriptor (mc : machine) : option descriptor :=
  match ladspa_descriptor 0 mc with
  | Some p =>
      match lookup p (heap mc) with
      | Some (DescriptorBlock d) => d
      | _ => None
      end
  | None => None
  end.

(** The length of the array block at [p], when there is one. *)
Definition array_length (p : option ptr) (mc : machine) : option nat :=
  match p with
  | Some q =>
      match lookup q (heap mc) with
      | Some (PortDescriptorArray l) => Some (length l)
      | Some (PortNameArray l) => Some (length l)
      | Some (RangeHintArray l) => Some (length l)
      | _ => None
      end
  | None => None
  end.

(** The machine that a computation ends in. *)
Definition final {A : Type} (r : outcome (A * machine)) : option machine :=
  match r with
  | Done (_, mc) => Some mc
  | Crash _ => None
  end.

(** [psDescriptor->PortDescriptors[i]] of the descriptor that
    [ladspa_descriptor 0] points to, when [i] is inside the array. *)
Definition port_flags (mc : machine) (i : nat) : option (list port_flag) :=
  match the_descriptor mc with
  | Some d =>
      match PortDescriptors d with
      | Some q =>
          match lookup q (heap mc) with
          | Some (PortDescriptorArray l) => nth_error l i
          | _ => None
          end
      | None => None
      end
  | None => None
  end.

(** Example allocation outcomes: everything succeeds; every [strdup]
    fails; only [calloc(3, sizeof(char * ))] fails. *)
Definition all_allocated : load_allocations :=
  {| a_descriptor := true; a_label := true; a_name := true; a_maker := true;
     a_copyright := true; a_port_descriptors := true; a_port_names := true;
     a_name_vad := true; a_name_input := true; a_name_output := true;
     a_range_hints := true |}.

Definition no_strings : load_allocations :=
  {| a_descriptor := true; a_label := false; a_name := false;
     a_maker := false; a_copyright := false; a_port_descriptors := true;
     a_port_names := true; a_name_vad := false; a_name_input := false;
     a_name_output := false; a_range_hints := true |}.

Definition no_port_names : load_allocations :=
  {| a_descriptor := true; a_label := true; a_name := true; a_maker := true;
     a_copyright := true; a_port_descriptors := true; a_port_names := false;
     a_name_vad := true; a_name_input := true; a_name_output := true;
     a_range_hints := true |}.

(** The machine after the load routine, when it returns. *)
Definition loaded (a : load_allocations) : machine :=
  match final (init a at_load) with
  | Some mc => mc
  | None => at_load
  end.

End Loader.

(* ===================================================================== *)
(** ** Basic facts: loops, memory, ring buffer *)
(* ===================================================================== *)

Lemma for_loop_S (S : Type) (n : nat) (body : nat -> S -> S) (s : S) :
  for_loop (Datatypes.S n) body s = body n (for_loop n body s).
Proof.
  unfold for_loop. rewrite seq_S, fold_left_app. reflexivity.
Qed.

Lemma for_loop_r_S (S : Type) (n : nat) (body : nat -> S -> result S) (s : S) :
  for_loop_r (Datatypes.S n) body s = (x <- for_loop_r n body s ;; body n x).
Proof.
  unfold for_loop_r. rewrite seq_S, fold_left_app. reflexivity.
Qed.

Lemma store_eq (m : memory) (a : addr) (v : float) : store m a v a = v.
Proof. unfold store. now rewrite Nat.eqb_refl. Qed.

Lemma store_neq (m : memory) (a b : addr) (v : float) :
  b <> a -> store m a v b = m b.
Proof.
  intros H. unfold store. destruct (Nat.eqb_spec b a); congruence.
Qed.

Lemma store_list_out (l : list float) (m : memory) (p a : addr) :
  a < p \/ p + length l <= a -> store_list m p l a = m a.
Proof.
  revert m p. induction l as [|v l IH]; intros m p H; simpl in *.
  - reflexivity.
  - rewrite IH by lia. apply store_neq. lia.
Qed.

Lemma store_list_in (l : list float) (m : memory) (p i : nat) :
  i < length l -> store_list m p l (p + i) = nth i l F32.zero.
Proof.
  revert m p i. induction l as [|v l IH]; intros m p i H; simpl in *.
  - lia.
  - destruct i as [|i].
    + rewrite store_list_out by lia. rewrite Nat.add_0_r. apply store_eq.
    + replace (p + S i) with (S p + i) by lia. apply IH. lia.
Qed.

(** A loop that rewrites cell [p + i] at step [i] from its own value. *)
Lemma map_loop_in (g : float -> float) (n : nat) (m : memory) (p i : nat) :
  i < n ->
  for_loop n (fun i m => store m (p + i) (g (m (p + i)))) m (p + i)
  = g (m (p + i)).
Proof.
  induction n as [|n IH]; intros H.
  - lia.
  - rewrite for_loop_S.
    destruct (Nat.eq_dec i n) as [->|Hne].
    + rewrite store_eq. f_equal.
      clear IH H. induction n as [|k IHk].
      * reflexivity.
      * rewrite for_loop_S, store_neq by lia.
        assert (Hk : forall j, k <= j ->
                  for_loop k (fun i m => store m (p + i) (g (m (p + i)))) m
                    (p + j) = m (p + j)).
        { clear IHk. induction k as [|k IHk]; intros j Hj.
          - reflexivity.
          - rewrite for_loop_S, store_neq by lia. apply IHk. lia. }
        apply Hk. lia.
    + rewrite store_neq by lia. apply IH. lia.
Qed.

Lemma map_loop_out (g : float -> float) (n : nat) (m : memory) (p a : nat) :
  a < p \/ p + n <= a ->
  for_loop n (fun i m => store m (p + i) (g (m (p + i)))) m a = m a.
Proof.
  induction n as [|n IH]; intros H.
  - reflexivity.
  - rewrite for_loop_S, store_neq by lia. apply IH. lia.
Qed.

Lemma fill_loop_in (v : float) (n : nat) (m : memory) (p i : nat) :
  i < n -> for_loop n (fun i m => store m (p + i) v) m (p + i) = v.
Proof.
  intros H. apply (map_loop_in (fun _ => v) m p H).
Qed.

Lemma fill_loop_out (v : float) (n : nat) (m : memory) (p a : nat) :
  a < p \/ p + n <= a ->
  for_loop n (fun i m => store m (p + i) v) m a = m a.
Proof.
  intros H. apply (map_loop_out (fun _ => v) n m H).
Qed.

Lemma load_n_length (m : memory) (p n : nat) : length (load_n m p n) = n.
Proof. unfold load_n. now rewrite length_map, length_seq. Qed.

Lemma load_n_ext (m m' : memory) (p n : nat) :
  (forall i, i < n -> m (p + i) = m' (p + i)) ->
  load_n m p n = load_n m' p n.
Proof.
  intros H. unfold load_n. apply map_ext_in.
  intros i Hi. apply in_seq in Hi. apply H. lia.
Qed.

Lemma load_n_scale_input (m : memory) (p n : nat) :
  load_n (scale_input m p n) p n
  = map (fun x => F32.mul x (F32.of_int 32767)) (load_n m p n).
Proof.
  unfold load_n. rewrite map_map. apply map_ext_in.
  intros i Hi. apply in_seq in Hi. unfold scale_input.
  apply (map_loop_in (fun x => F32.mul x (F32.of_int 32767))). lia.
Qed.

Ltac sizes :=
  unfold ringbuf_bytes_free, ringbuf_bytes_used, FRAMESIZE_BYTES,
    FRAMESIZE_NSAMPLES, sizeof_float in *.

Lemma memcpy_into_ok (rb : ringbuf_t) (src : list float) :
  sizeof_float * length src <= ringbuf_bytes_free rb ->
  ringbuf_memcpy_into rb src
  = Ok {| rb_capacity := rb_capacity rb; rb_cells := rb_cells rb ++ src |}.
Proof.
  intros H. unfold ringbuf_memcpy_into.
  destruct (Nat.leb_spec (sizeof_float * length src) (ringbuf_bytes_free rb))
    as [_|Hlt]; [reflexivity|lia].
Qed.

Lemma memcpy_into_inv (rb rb' : ringbuf_t) (src : list float) :
  ringbuf_memcpy_into rb src = Ok rb' ->
  sizeof_float * length src <= ringbuf_bytes_free rb /\
  rb' = {| rb_capacity := rb_capacity rb; rb_cells := rb_cells rb ++ src |}.
Proof.
  unfold ringbuf_memcpy_into.
  destruct (Nat.leb_spec (sizeof_float * length src) (ringbuf_bytes_free rb))
    as [Hle|Hlt]; intros H; inversion H; subst.
  split; [assumption|reflexivity].
Qed.

Lemma memcpy_from_ok (rb : ringbuf_t) (cells : nat) :
  cells <= length (rb_cells rb) ->
  ringbuf_memcpy_from rb (cells * sizeof_float)
  = Ok (firstn cells (rb_cells rb),
        {| rb_capacity := rb_capacity rb;
           rb_cells := skipn cells (rb_cells rb) |}).
Proof.
  intros H. unfold ringbuf_memcpy_from.
  rewrite Nat.div_mul by (unfold sizeof_float; lia).
  destruct (Nat.leb_spec (cells * sizeof_float) (ringbuf_bytes_used rb))
    as [_|Hlt]; [reflexivity|].
  sizes. lia.
Qed.

(** A queue built from equal chunks gives back chunk [k] at offset [k * c]. *)
Lemma chunk_at (A : Type) (c : nat) (F : nat -> list A) (pre : list A)
  (n k : nat) :
  (forall j, j < n -> length (F j) = c) ->
  k < n ->
  firstn c (skipn (length pre + k * c) (pre ++ flat_map F (seq 0 n))) = F k.
Proof.
  intros HF Hk.
  rewrite skipn_app, skipn_all2 by lia.
  replace (length pre + k * c - length pre) with (k * c) by lia.
  cbn [app].
  induction n as [|n IH]; [lia|].
  assert (Hlen : length (flat_map F (seq 0 n)) = n * c).
  { clear IH Hk. induction n as [|n IHn]; [reflexivity|].
    rewrite seq_S, flat_map_app, length_app, IHn by (intros; apply HF; lia).
    cbn [flat_map seq]. rewrite app_nil_r, HF by lia. lia. }
  rewrite seq_S, flat_map_app. cbn [flat_map Nat.add]. rewrite app_nil_r.
  rewrite skipn_app, firstn_app, length_skipn, Hlen.
  destruct (Nat.eq_dec k n) as [->|Hne].
  - rewrite skipn_all2 by lia. rewrite Nat.sub_diag. cbn [skipn firstn app].
    rewrite firstn_nil. cbn [length app]. rewrite Nat.sub_0_r.
    apply firstn_all2. rewrite HF; lia.
  - assert (k * c + c <= n * c) by nia.
    replace (c - (n * c - k * c)) with 0 by lia.
    cbn [firstn]. rewrite app_nil_r. apply IH; [intros; apply HF|]; lia.
Qed.

Section FrameLoop.

Variable E : Denoiser.
Variable vad_thresh : float.
Variable tmpin : list float.

Lemma gated_length (st0 : DenoiseState E) (g0 : Z) (k : nat) :
  length (gated E vad_thresh st0 tmpin g0 k) = FRAMESIZE_NSAMPLES.
Proof.
  unfold gated. destruct (passes _ _ _ _ _ _).
  - apply rnnoise_frame_length.
  - apply repeat_length.
Qed.

Lemma gated_flat_length (st0 : DenoiseState E) (g0 : Z) (n : nat) :
  length (flat_map (gated E vad_thresh st0 tmpin g0) (seq 0 n))
  = n * FRAMESIZE_NSAMPLES.
Proof.
  induction n as [|n IH]; [reflexivity|].
  rewrite seq_S, flat_map_app, length_app, IH. cbn [flat_map Nat.add].
  rewrite app_nil_r, gated_length. lia.
Qed.

(** The frame loop in closed form: with room for [n] frames in the output
    ring buffer it runs to the end, the engine has seen [n] frames, the
    counter is [grace_after n] and the [n] gated frames were pushed. *)
Lemma process_frames_trace (st0 : DenoiseState E) (g0 : Z) (ob : ringbuf_t)
  (n : nat) :
  n * FRAMESIZE_BYTES <= ringbuf_bytes_free ob ->
  process_frames vad_thresh tmpin n (Some st0, g0, ob)
  = Ok (Some (engine_state E st0 tmpin n),
        grace_after E vad_thresh st0 tmpin g0 n,
        {| rb_capacity := rb_capacity ob;
           rb_cells := rb_cells ob
                       ++ flat_map (gated E vad_thresh st0 tmpin g0) (seq 0 n) |}).
Proof.
  unfold process_frames. induction n as [|n IH]; intros Hroom.
  - unfold for_loop_r. cbn [seq fold_left flat_map engine_state grace_after].
    rewrite app_nil_r. now destruct ob.
  - rewrite for_loop_r_S, IH by lia. cbn [bind].
    rewrite seq_S, flat_map_app. cbn [flat_map Nat.add]. rewrite app_nil_r.
    unfold gate_frame. cbn [deref bind].
    cbn [engine_state grace_after].
    unfold gated at 3, passes, reopen, denoised, speech_prob.
    destruct (rnnoise_process_frame E (engine_state E st0 tmpin n)
                (frame_at tmpin n)) as [[st1 tmp] p] eqn:Hp.
    cbn [fst snd].
    assert (Htmp : length tmp = FRAMESIZE_NSAMPLES).
    { pose proof (rnnoise_frame_length E (engine_state E st0 tmpin n)
                    (frame_at tmpin n)) as Hl.
      now rewrite Hp in Hl. }
    set (g := if F32.gt p vad_thresh then VAD_GRACE_PERIOD
              else grace_after E vad_thresh st0 tmpin g0 n).
    destruct (0 <=? g)%Z.
    + rewrite memcpy_into_ok.
      * cbn [bind rb_capacity rb_cells]. now rewrite app_assoc.
      * unfold ringbuf_bytes_free, ringbuf_bytes_used in *.
        cbn [rb_cells rb_capacity].
        rewrite length_app, gated_flat_length, Htmp. sizes. lia.
    + rewrite memcpy_into_ok.
      * cbn [bind rb_capacity rb_cells]. now rewrite app_assoc.
      * unfold ringbuf_bytes_free, ringbuf_bytes_used in *.
        cbn [rb_cells rb_capacity].
        rewrite length_app, gated_flat_length, repeat_length. sizes. lia.
Qed.

(** Frame [k] of the pushed frames is the gated frame [k]. *)
Lemma emitted_gated (st0 : DenoiseState E) (g0 : Z) (ob : ringbuf_t)
  (n k : nat) :
  k < n ->
  emitted ob
    {| rb_capacity := rb_capacity ob;
       rb_cells := rb_cells ob
                   ++ flat_map (gated E vad_thresh st0 tmpin g0) (seq 0 n) |} k
  = gated E vad_thresh st0 tmpin g0 k.
Proof.
  intros Hk. unfold emitted. cbn [rb_cells].
  apply chunk_at; [|assumption]. intros j _. apply gated_length.
Qed.

Lemma process_frames_0 (s : gate_state E) :
  process_frames vad_thresh tmpin 0 s = Ok s.
Proof. reflexivity. Qed.

(** Conversely, a loop of at least one frame that runs to the end had a
    valid engine handle and room for all its frames. *)
Lemma process_frames_inv (sto : option (DenoiseState E)) (g0 : Z)
  (ob : ringbuf_t) (n : nat) (s' : gate_state E) :
  0 < n ->
  process_frames vad_thresh tmpin n (sto, g0, ob) = Ok s' ->
  exists st0, sto = Some st0 /\
              n * FRAMESIZE_BYTES <= ringbuf_bytes_free ob.
Proof.
  revert s'. induction n as [|n IH]; intros s' Hn Hrun; [lia|].
  unfold process_frames in Hrun. rewrite for_loop_r_S in Hrun.
  fold (process_frames vad_thresh tmpin n (sto, g0, ob)) in Hrun.
  destruct (process_frames vad_thresh tmpin n (sto, g0, ob)) as [x|e] eqn:Hx;
    [|discriminate].
  cbn [bind] in Hrun.
  assert (Hsto : exists st0, sto = Some st0).
  { destruct n as [|n].
    - rewrite process_frames_0 in Hx. inversion Hx; subst x.
      unfold gate_frame in Hrun. destruct sto as [st0|]; [eauto|discriminate].
    - destruct (IH x) as [st0 [-> _]]; [lia|reflexivity|eauto]. }
  destruct Hsto as [st0 ->]. exists st0. split; [reflexivity|].
  assert (Hroom : n * FRAMESIZE_BYTES <= ringbuf_bytes_free ob).
  { destruct n as [|n]; [lia|].
    destruct (IH x) as [st0' [_ Hr]]; [lia|reflexivity|exact Hr]. }
  rewrite process_frames_trace in Hx by exact Hroom.
  inversion Hx; subst x. clear Hx IH.
  unfold gate_frame in Hrun. cbn [deref bind] in Hrun.
  destruct (rnnoise_process_frame E (engine_state E st0 tmpin n)
              (frame_at tmpin n)) as [[st1 tmp] p] eqn:Hp.
  assert (Htmp : length tmp = FRAMESIZE_NSAMPLES).
  { pose proof (rnnoise_frame_length E (engine_state E st0 tmpin n)
                  (frame_at tmpin n)) as Hl.
    now rewrite Hp in Hl. }
  assert (Hpush : forall (g : Z) (src : list float),
             length src = FRAMESIZE_NSAMPLES ->
             (ob1 <- ringbuf_memcpy_into
                       {| rb_capacity := rb_capacity ob;
                          rb_cells := rb_cells ob
                            ++ flat_map (gated E vad_thresh st0 tmpin g0)
                                 (seq 0 n) |} src ;;
              Ok (Some st1, g, ob1)) = Ok s' ->
             S n * FRAMESIZE_BYTES <= ringbuf_bytes_free ob).
  { intros g src Hsrc Hb.
    destruct (ringbuf_memcpy_into _ src) as [rb'|e] eqn:Hinto; [|discriminate].
    apply memcpy_into_inv in Hinto. destruct Hinto as [Hle _].
    revert Hle. unfold ringbuf_bytes_free, ringbuf_bytes_used.
    cbn [rb_cells rb_capacity].
    rewrite length_app, gated_flat_length, Hsrc. sizes. lia. }
  destruct (F32.gt p vad_thresh); destruct (0 <=? _)%Z in Hrun;
    (eapply Hpush; [|exact Hrun]); first [exact Htmp | apply repeat_length].
Qed.

End FrameLoop.

(* ===================================================================== *)
(** ** The grace counter *)
(* ===================================================================== *)

Section Gate.

Variable E : Denoiser.
Variable vad_thresh : float.
Variable st0 : DenoiseState E.
Variable tmpin : list float.

Local Notation "'prob'" := (speech_prob E st0 tmpin).
Local Notation "'grace'" := (grace_after E vad_thresh st0 tmpin).

Lemma grace_after_loud (g0 : Z) (k : nat) :
  F32.gt (prob k) vad_thresh = true ->
  grace g0 (S k) = (VAD_GRACE_PERIOD - 1)%Z.
Proof.
  intros H. cbn [grace_after]. unfold reopen. rewrite H. reflexivity.
Qed.

Lemma grace_after_quiet (g0 : Z) (k : nat) :
  F32.gt (prob k) vad_thresh = false ->
  grace g0 (S k)
  = if (0 <=? grace g0 k)%Z then (grace g0 k - 1)%Z else grace g0 k.
Proof.
  intros H. cbn [grace_after]. unfold reopen. rewrite H. reflexivity.
Qed.

(** A frame never takes the counter below [-1]. *)
Lemma grace_after_step (g0 : Z) (k : nat) :
  (Z.min (grace g0 k) (-1) <= grace g0 (S k))%Z.
Proof.
  cbn [grace_after]. unfold reopen, VAD_GRACE_PERIOD.
  destruct (F32.gt (prob k) vad_thresh);
    destruct (Z.leb_spec 0 20); destruct (Z.leb_spec 0 (grace g0 k)); lia.
Qed.

Lemma grace_after_lower (g0 : Z) (k : nat) :
  (Z.min g0 VAD_GRACE_PERIOD - Z.of_nat k <= grace g0 k)%Z.
Proof.
  induction k as [|k IH].
  - cbn [grace_after]. lia.
  - cbn [grace_after]. unfold reopen, VAD_GRACE_PERIOD in *.
    destruct (F32.gt (prob k) vad_thresh);
      destruct (Z.leb_spec 0 20); destruct (Z.leb_spec 0 (grace g0 k)); lia.
Qed.

Lemma grace_after_floor (g0 : Z) (k : nat) :
  (-1 <= g0)%Z -> (-1 <= grace g0 k)%Z.
Proof.
  intros H. induction k as [|k IH]; [exact H|].
  pose proof (grace_after_step g0 k). lia.
Qed.

(** While the counter covers the frame index the frame is passed on. *)
Lemma passes_prefix (g0 : Z) (k : nat) :
  (Z.of_nat k <= Z.min g0 VAD_GRACE_PERIOD)%Z ->
  passes E vad_thresh st0 tmpin g0 k = true.
Proof.
  intros H. unfold passes, reopen. pose proof (grace_after_lower g0 k).
  unfold VAD_GRACE_PERIOD in *.
  destruct (F32.gt (prob k) vad_thresh); apply Z.leb_le; lia.
Qed.

(** After a trigger on frame 0 and quiet frames up to [k], the counter is
    [VAD_GRACE_PERIOD - k], clamped at [-1]. *)
Lemma grace_after_trigger (g0 : Z) (n k : nat) :
  F32.gt (prob 0) vad_thresh = true ->
  (forall j, 1 <= j < n -> F32.gt (prob j) vad_thresh = false) ->
  1 <= k <= n ->
  grace g0 k = Z.max (VAD_GRACE_PERIOD - Z.of_nat k) (-1).
Proof.
  intros H0 Hq. induction k as [|k IH]; intros Hk; [lia|].
  destruct (Nat.eq_dec k 0) as [->|Hk0].
  - rewrite grace_after_loud by exact H0. reflexivity.
  - rewrite grace_after_quiet by (apply Hq; lia).
    rewrite IH by lia. unfold VAD_GRACE_PERIOD.
    destruct (Z.leb_spec 0 (Z.max (20 - Z.of_nat k) (-1))); lia.
Qed.

Lemma passes_after_trigger (g0 : Z) (n k : nat) :
  F32.gt (prob 0) vad_thresh = true ->
  (forall j, 1 <= j < n -> F32.gt (prob j) vad_thresh = false) ->
  1 <= k < n ->
  passes E vad_thresh st0 tmpin g0 k = (k <=? 20).
Proof.
  intros H0 Hq Hk. unfold passes, reopen.
  rewrite Hq by exact Hk.
  rewrite (@grace_after_trigger g0 n k) by (assumption || lia).
  unfold VAD_GRACE_PERIOD.
  destruct (Nat.leb_spec k 20); [apply Z.leb_le|apply Z.leb_gt]; lia.
Qed.

End Gate.


(* ===================================================================== *)
(** ** The phases of runFilter in closed form *)
(* ===================================================================== *)

Lemma feed_input_ok (ib : ringbuf_t) (m : memory) (inp n : nat) :
  sizeof_float * n <= ringbuf_bytes_free ib ->
  feed_input ib m inp n
  = let q := rb_cells ib ++ load_n m inp n in
    let n_frames :=
      (ringbuf_bytes_used ib + sizeof_float * n) / FRAMESIZE_BYTES in
    Ok (n_frames,
        firstn (n_frames * FRAMESIZE_NSAMPLES) q,
        {| rb_capacity := rb_capacity ib;
           rb_cells := skipn (n_frames * FRAMESIZE_NSAMPLES) q |}).
Proof.
  intros H. unfold feed_input.
  rewrite memcpy_into_ok by (now rewrite load_n_length).
  cbn [bind]. unfold ringbuf_bytes_used at 1 2. cbn [rb_cells].
  rewrite length_app, load_n_length.
  replace (sizeof_float * (length (rb_cells ib) + n))
    with (ringbuf_bytes_used ib + sizeof_float * n)
    by (unfold ringbuf_bytes_used; lia).
  set (n_frames := (ringbuf_bytes_used ib + sizeof_float * n) / FRAMESIZE_BYTES).
  replace (FRAMESIZE_BYTES * n_frames)
    with (n_frames * FRAMESIZE_NSAMPLES * sizeof_float)
    by (unfold FRAMESIZE_BYTES, FRAMESIZE_NSAMPLES, sizeof_float; lia).
  rewrite memcpy_from_ok; [reflexivity|].
  cbn [rb_cells]. rewrite length_app, load_n_length.
  subst n_frames. sizes. lia.
Qed.

Lemma feed_input_inv (ib : ringbuf_t) (m : memory) (inp n : nat)
  (r : nat * list float * ringbuf_t) :
  feed_input ib m inp n = Ok r -> sizeof_float * n <= ringbuf_bytes_free ib.
Proof.
  unfold feed_input.
  destruct (ringbuf_memcpy_into ib (load_n m inp n)) as [ib1|e] eqn:Hinto;
    [|discriminate].
  intros _. apply memcpy_into_inv in Hinto.
  now rewrite load_n_length in Hinto.
Qed.

Lemma samples_avail_le (ob : ringbuf_t) :
  samples_avail ob <= length (rb_cells ob).
Proof. unfold samples_avail. sizes. lia. Qed.

(** The drain phase never faults.  It pops [min samples_avail n_samples]
    floats; the output block is the popped floats, preceded by zeros when
    there are too few, each divided by 32767; memory outside the output
    block is untouched. *)
Lemma drain_output_ok (ob : ringbuf_t) (m : memory) (out n : nat) :
  exists m',
    drain_output ob m out n
    = Ok ({| rb_capacity := rb_capacity ob;
             rb_cells := skipn (Nat.min (samples_avail ob) n) (rb_cells ob) |},
          m') /\
    (forall a, a < out \/ out + n <= a -> m' a = m a) /\
    (forall i, i < n ->
       m' (out + i)
       = F32.div
           (nth i (repeat F32.zero (n - samples_avail ob) ++ rb_cells ob)
              F32.zero)
           (F32.of_int 32767)).
Proof.
  pose proof (samples_avail_le ob) as Hle.
  unfold drain_output. fold (samples_avail ob).
  destruct (Nat.ltb_spec (samples_avail ob) n) as [Hlt|Hge].
  - rewrite memcpy_from_ok by exact Hle. cbn [bind].
    eexists. split; [|split].
    + rewrite Nat.min_l by lia. reflexivity.
    + intros a Ha.
      rewrite (map_loop_out (fun x => F32.div x (F32.of_int 32767))) by lia.
      rewrite store_list_out
        by (rewrite length_firstn, Nat.min_l by exact Hle; lia).
      apply fill_loop_out. lia.
    + intros i Hi.
      rewrite (map_loop_in (fun x => F32.div x (F32.of_int 32767))) by exact Hi.
      f_equal.
      destruct (Nat.lt_ge_cases i (n - samples_avail ob)) as [Hs|Hs].
      * rewrite store_list_out by lia. rewrite fill_loop_in by exact Hs.
        rewrite app_nth1 by (now rewrite repeat_length).
        now rewrite nth_repeat.
      * replace (out + i)
          with (out + (n - samples_avail ob) + (i - (n - samples_avail ob)))
          by lia.
        rewrite store_list_in
          by (rewrite length_firstn, Nat.min_l by exact Hle; lia).
        rewrite nth_firstn.
        destruct (Nat.ltb_spec (i - (n - samples_avail ob)) (samples_avail ob));
          [|lia].
        rewrite app_nth2 by (rewrite repeat_length; lia).
        now rewrite repeat_length.
  - rewrite memcpy_from_ok by lia. cbn [bind].
    eexists. split; [|split].
    + rewrite Nat.min_r by lia. reflexivity.
    + intros a Ha.
      rewrite (map_loop_out (fun x => F32.div x (F32.of_int 32767))) by lia.
      apply store_list_out. rewrite length_firstn. lia.
    + intros i Hi.
      rewrite (map_loop_in (fun x => F32.div x (F32.of_int 32767))) by exact Hi.
      f_equal.
      rewrite store_list_in by (rewrite length_firstn; lia).
      rewrite nth_firstn.
      destruct (Nat.ltb_spec i n); [|lia].
      replace (n - samples_avail ob) with 0 by lia. reflexivity.
Qed.

Section RunPhases.

Variable E : Denoiser.

(** What a call that returns went through. *)
Lemma runFilter_inv (f f' : rnnoiseFilter E) (m m' : memory) (n : nat) :
  runFilter f m n = Ok (f', m') ->
  exists inp out vad ib ob sto1 g1 ob1 ob2,
    m_pfInput f = Some inp /\ m_pfOutput f = Some out /\
    m_pfVAD f = Some vad /\ in_buf f = Some ib /\ out_buf f = Some ob /\
    sizeof_float * n <= ringbuf_bytes_free ib /\
    let m1 := scale_input m inp n in
    let q := rb_cells ib ++ load_n m1 inp n in
    let n_frames :=
      (ringbuf_bytes_used ib + sizeof_float * n) / FRAMESIZE_BYTES in
    process_frames (F32.div (m vad) (F32.of_int 100))
      (firstn (n_frames * FRAMESIZE_NSAMPLES) q) n_frames
      (st f, remaining_grace_period f, ob) = Ok (sto1, g1, ob1) /\
    drain_output ob1 m1 out n = Ok (ob2, m') /\
    f' = {| st := sto1;
            in_buf := Some {| rb_capacity := rb_capacity ib;
                              rb_cells :=
                                skipn (n_frames * FRAMESIZE_NSAMPLES) q |};
            out_buf := Some ob2;
            remaining_grace_period := g1;
            init := init f;
            m_pfVAD := m_pfVAD f;
            m_pfInput := m_pfInput f;
            m_pfOutput := m_pfOutput f |}.
Proof.
  unfold runFilter. intros H.
  destruct (m_pfInput f) as [inp|]; [|discriminate].
  destruct (m_pfOutput f) as [out|]; [|discriminate].
  destruct (m_pfVAD f) as [vad|]; [|discriminate].
  destruct (in_buf f) as [ib|]; [|discriminate].
  cbn [port deref bind] in H.
  destruct (feed_input ib (scale_input m inp n) inp n) as [r|e] eqn:Hfeed;
    [|discriminate].
  pose proof (feed_input_inv _ _ _ _ Hfeed) as Hroom.
  rewrite feed_input_ok in Hfeed by exact Hroom.
  cbv zeta in Hfeed. inversion Hfeed; subst r; clear Hfeed.
  cbn [bind] in H.
  destruct (out_buf f) as [ob|]; [|discriminate].
  cbn [deref bind] in H.
  match type of H with
  | context [process_frames ?th ?t ?k ?s] =>
      destruct (process_frames th t k s) as [[[sto1 g1] ob1]|e] eqn:Hloop;
        [|discriminate]
  end.
  cbn [bind] in H.
  destruct (drain_output ob1 (scale_input m inp n) out n) as [[ob2 m2]|e]
    eqn:Hdrain; [|discriminate].
  cbn [bind] in H. inversion H; subst; clear H.
  exists inp, out, vad, ib, ob, sto1, g1, ob1, ob2.
  repeat split; try reflexivity; assumption.
Qed.

(** The sizes of the frame loop's result. *)
Lemma process_frames_size (th : float) (tmpin : list float) (n : nat)
  (sto sto1 : option (DenoiseState E)) (g0 g1 : Z) (ob ob1 : ringbuf_t) :
  process_frames th tmpin n (sto, g0, ob) = Ok (sto1, g1, ob1) ->
  rb_capacity ob1 = rb_capacity ob /\
  length (rb_cells ob1) = length (rb_cells ob) + n * FRAMESIZE_NSAMPLES /\
  n * FRAMESIZE_BYTES <= ringbuf_bytes_free ob.
Proof.
  intros H. destruct (Nat.eq_dec n 0) as [->|Hn].
  - rewrite process_frames_0 in H. inversion H; subst.
    rewrite !Nat.mul_0_l. repeat split; lia.
  - assert (Hpos : 0 < n) by lia.
    destruct (process_frames_inv _ _ _ _ _ Hpos H) as [st0 [-> Hroom]].
    rewrite process_frames_trace in H by exact Hroom.
    inversion H; subst; clear H. cbn [rb_capacity rb_cells].
    rewrite length_app, gated_flat_length. repeat split; (lia || exact Hroom).
Qed.

End RunPhases.

Section RunClosedForm.

Variable E : Denoiser.
Variable f : rnnoiseFilter E.
Variable m : memory.
Variable n : nat.

Variable st0 : DenoiseState E.
Variables ib ob : ringbuf_t.
Variables inp out vad : addr.

Hypothesis Hst : st f = Some st0.
Hypothesis Hib : in_buf f = Some ib.
Hypothesis Hob : out_buf f = Some ob.
Hypothesis Hinp : m_pfInput f = Some inp.
Hypothesis Hout : m_pfOutput f = Some out.
Hypothesis Hvad : m_pfVAD f = Some vad.

Let vad_thresh : float := F32.div (m vad) (F32.of_int 100).
Let m1 : memory := scale_input m inp n.
Let q_in : list float := rb_cells ib ++ load_n m1 inp n.
Let n_frames : nat :=
  (ringbuf_bytes_used ib + sizeof_float * n) / FRAMESIZE_BYTES.
Let tmpin : list float := firstn (n_frames * FRAMESIZE_NSAMPLES) q_in.
Let ob1 : ringbuf_t :=
  {| rb_capacity := rb_capacity ob;
     rb_cells :=
       rb_cells ob
       ++ flat_map (gated E vad_thresh st0 tmpin (remaining_grace_period f))
            (seq 0 n_frames) |}.

(** A call within the capacities returns, and this is what it returns. *)
Lemma runFilter_ok :
  sizeof_float * n <= ringbuf_bytes_free ib ->
  n_frames * FRAMESIZE_BYTES <= ringbuf_bytes_free ob ->
  exists m',
    runFilter f m n
    = Ok ({| st := Some (engine_state E st0 tmpin n_frames);
             in_buf :=
               Some {| rb_capacity := rb_capacity ib;
                       rb_cells := skipn (n_frames * FRAMESIZE_NSAMPLES) q_in |};
             out_buf :=
               Some {| rb_capacity := rb_capacity ob;
                       rb_cells :=
                         skipn (Nat.min (samples_avail ob1) n) (rb_cells ob1) |};
             remaining_grace_period :=
               grace_after E vad_thresh st0 tmpin (remaining_grace_period f)
                 n_frames;
             init := init f;
             m_pfVAD := m_pfVAD f;
             m_pfInput := m_pfInput f;
             m_pfOutput := m_pfOutput f |},
          m') /\
    (forall a, a < out \/ out + n <= a -> m' a = m1 a) /\
    (forall i, i < n ->
       m' (out + i)
       = F32.div
           (nth i (repeat F32.zero (n - samples_avail ob1) ++ rb_cells ob1)
              F32.zero)
           (F32.of_int 32767)).
Proof.
  intros Hroom_in Hroom_out.
  destruct (drain_output_ok ob1 m1 out n) as [m' [Hdrain [Hout_m Hin_m]]].
  exists m'. split; [|split; assumption].
  unfold runFilter. rewrite Hinp, Hout, Hvad, Hib, Hob, Hst.
  cbn [port deref bind].
  rewrite feed_input_ok by exact Hroom_in. cbv zeta. cbn [bind].
  fold m1 q_in n_frames tmpin vad_thresh.
  rewrite process_frames_trace by exact Hroom_out. cbn [bind].
  fold ob1. rewrite Hdrain. cbn [bind]. reflexivity.
Qed.

End RunClosedForm.

Section RunFacts.

Variable E : Denoiser.

Lemma can_run_inv (f : rnnoiseFilter E) (n : nat) :
  can_run f n ->
  exists st0 ib ob inp out vad,
    st f = Some st0 /\ in_buf f = Some ib /\ out_buf f = Some ob /\
    m_pfInput f = Some inp /\ m_pfOutput f = Some out /\
    m_pfVAD f = Some vad /\
    sizeof_float * n <= ringbuf_bytes_free ib /\
    (ringbuf_bytes_used ib + sizeof_float * n) / FRAMESIZE_BYTES
      * FRAMESIZE_BYTES <= ringbuf_bytes_free ob.
Proof.
  unfold can_run, wired, frames_ready, in_bytes. intros [Hw Hroom].
  destruct (st f) as [st0|]; [|discriminate].
  destruct (in_buf f) as [ib|]; [|discriminate].
  destruct (out_buf f) as [ob|]; [|discriminate].
  destruct (m_pfVAD f) as [vad|]; [|discriminate].
  destruct (m_pfInput f) as [inp|]; [|discriminate].
  destruct (m_pfOutput f) as [out|]; [|discriminate].
  exists st0, ib, ob, inp, out, vad. tauto.
Qed.

(** Within the capacities [runFilter] returns. *)
Lemma runFilter_runs (f : rnnoiseFilter E) (m : memory) (n : nat) :
  can_run f n -> exists f' m', runFilter f m n = Ok (f', m').
Proof.
  intros H.
  destruct (can_run_inv H)
    as (st0 & ib & ob & inp & out & vad & Hst & Hib & Hob & Hinp & Hout
        & Hvad & Hin & Hroom).
  destruct (@runFilter_ok E f m n st0 ib ob inp out vad
              Hst Hib Hob Hinp Hout Hvad Hin Hroom) as [m' [Hrun _]].
  eauto.
Qed.

End RunFacts.

Section LoopCases.

Variable E : Denoiser.

(** Either the loop had no frame to process, or it ran as in
    [process_frames_trace]. *)
Lemma process_frames_cases (th : float) (tmpin : list float) (n : nat)
  (sto sto1 : option (DenoiseState E)) (g0 g1 : Z) (ob ob1 : ringbuf_t) :
  process_frames th tmpin n (sto, g0, ob) = Ok (sto1, g1, ob1) ->
  (n = 0 /\ sto1 = sto /\ g1 = g0 /\ ob1 = ob) \/
  (exists st0,
      sto = Some st0 /\
      n * FRAMESIZE_BYTES <= ringbuf_bytes_free ob /\
      sto1 = Some (engine_state E st0 tmpin n) /\
      g1 = grace_after E th st0 tmpin g0 n /\
      ob1 = {| rb_capacity := rb_capacity ob;
               rb_cells := rb_cells ob
                           ++ flat_map (gated E th st0 tmpin g0) (seq 0 n) |}).
Proof.
  intros H. destruct (Nat.eq_dec n 0) as [->|Hn].
  - left. rewrite process_frames_0 in H. inversion H; subst. tauto.
  - right. assert (Hpos : 0 < n) by lia.
    destruct (process_frames_inv _ _ _ _ _ Hpos H) as [st0 [-> Hroom]].
    rewrite process_frames_trace in H by exact Hroom.
    inversion H; subst; clear H. exists st0. tauto.
Qed.

Lemma connect_keeps (f : rnnoiseFilter E) (Port : nat) (loc : addr) :
  st (connectPortToSimpleFilter f Port loc) = st f /\
  in_buf (connectPortToSimpleFilter f Port loc) = in_buf f /\
  out_buf (connectPortToSimpleFilter f Port loc) = out_buf f /\
  remaining_grace_period (connectPortToSimpleFilter f Port loc)
  = remaining_grace_period f.
Proof.
  destruct Port as [|[|[|Port]]]; cbn; tauto.
Qed.

(** The recording engine appends one entry per frame. *)
Lemma recording_log (s : DenoiseState (recording E)) (tmpin : list float)
  (k : nat) :
  snd (engine_state (recording E) s tmpin k)
  = snd s ++ map (frame_at tmpin) (seq 0 k).
Proof.
  induction k as [|k IH].
  - cbn [engine_state seq map]. now rewrite app_nil_r.
  - cbn [engine_state]. cbn [recording rnnoise_process_frame fst snd].
    rewrite IH, seq_S, map_app, app_assoc. reflexivity.
Qed.

End LoopCases.

Section AcrossCalls.

Variable E : Denoiser.
Variable vad_thresh : float.

Lemma gate_frame_ext (t t' : list float) (i i' : nat) (s : gate_state E) :
  frame_at t i = frame_at t' i' ->
  gate_frame vad_thresh t i s = gate_frame vad_thresh t' i' s.
Proof.
  intros H. unfold gate_frame. destruct s as [[sto g] ob]. now rewrite H.
Qed.

Lemma fold_frames_ext (body body' : nat -> gate_state E -> result (gate_state E))
  (l : list nat) (r : result (gate_state E)) :
  (forall i s, In i l -> body i s = body' i s) ->
  fold_left (fun r i => s <- r ;; body i s) l r
  = fold_left (fun r i => s <- r ;; body' i s) l r.
Proof.
  revert r. induction l as [|i l IH]; intros r H; [reflexivity|].
  cbn [fold_left]. rewrite IH by (intros; apply H; now right).
  f_equal. destruct r as [s|e]; [|reflexivity].
  cbn [bind]. apply H. now left.
Qed.

Lemma fold_frames_shift (body : nat -> gate_state E -> result (gate_state E))
  (a n : nat) (r : result (gate_state E)) :
  fold_left (fun r i => s <- r ;; body i s) (seq a n) r
  = fold_left (fun r j => s <- r ;; body (a + j) s) (seq 0 n) r.
Proof.
  revert body a r. induction n as [|n IH]; intros body a r; [reflexivity|].
  cbn [seq fold_left]. rewrite Nat.add_0_r.
  rewrite (IH body (S a)), (IH (fun j => body (a + j)) 1).
  apply fold_frames_ext.
  intros i s _. f_equal. lia.
Qed.

Lemma fold_frames_fault (body : nat -> gate_state E -> result (gate_state E))
  (l : list nat) (e : fault) :
  fold_left (fun r i => s <- r ;; body i s) l (Fault e) = Fault e.
Proof. induction l as [|i l IH]; [reflexivity|exact IH]. Qed.

(** The frames of two calls go through the gate as the frames of one call
    would: the loop over [t1 ++ t2] is the loop over [t1] followed by the
    loop over [t2] on the state that the first one left. *)
Lemma process_frames_app (t1 t2 : list float) (n1 n2 : nat)
  (s : gate_state E) :
  length t1 = n1 * FRAMESIZE_NSAMPLES ->
  process_frames vad_thresh (t1 ++ t2) (n1 + n2) s
  = (s1 <- process_frames vad_thresh t1 n1 s ;;
     process_frames vad_thresh t2 n2 s1).
Proof.
  intros Hlen. unfold process_frames, for_loop_r.
  rewrite seq_app, fold_left_app. cbn [Nat.add].
  assert (H1 : fold_left
                 (fun r i => s <- r ;; gate_frame vad_thresh (t1 ++ t2) i s)
                 (seq 0 n1) (Ok s)
               = fold_left
                   (fun r i => s <- r ;; gate_frame vad_thresh t1 i s)
                   (seq 0 n1) (Ok s)).
  { apply fold_frames_ext.
    intros i s' Hi. apply in_seq in Hi. apply gate_frame_ext.
    unfold frame_at. rewrite skipn_app, firstn_app, length_skipn.
    assert (i * FRAMESIZE_NSAMPLES + FRAMESIZE_NSAMPLES
            <= n1 * FRAMESIZE_NSAMPLES) by nia.
    replace (FRAMESIZE_NSAMPLES - (length t1 - i * FRAMESIZE_NSAMPLES))
      with 0 by lia.
    cbn [firstn]. now rewrite app_nil_r. }
  rewrite H1. clear H1.
  destruct (fold_left _ (seq 0 n1) (Ok s)) as [s1|e]; cbn [bind].
  - rewrite fold_frames_shift. apply fold_frames_ext.
    intros j s' _. apply gate_frame_ext. unfold frame_at.
    rewrite skipn_app.
    replace ((n1 + j) * FRAMESIZE_NSAMPLES - length t1)
      with (j * FRAMESIZE_NSAMPLES) by lia.
    rewrite skipn_all2 by lia. reflexivity.
  - apply fold_frames_fault.
Qed.

End AcrossCalls.

(** The recording engine denoises as the engine that it wraps. *)
Lemma recording_transparent (E : Denoiser) (s : DenoiseState (recording E))
  (tmpin : list float) (k : nat) :
  fst (engine_state (recording E) s tmpin k) = engine_state E (fst s) tmpin k /\
  denoised (recording E) s tmpin k = denoised E (fst s) tmpin k /\
  speech_prob (recording E) s tmpin k = speech_prob E (fst s) tmpin k.
Proof.
  assert (Hst : forall j,
             fst (engine_state (recording E) s tmpin j)
             = engine_state E (fst s) tmpin j).
  { induction j as [|j IH]; [reflexivity|].
    cbn [engine_state]. cbn [recording rnnoise_process_frame fst].
    now rewrite IH. }
  split; [apply Hst|].
  unfold denoised, speech_prob. cbn [recording rnnoise_process_frame fst snd].
  now rewrite Hst.
Qed.

(* ===================================================================== *)
(** ** The voice gate *)
(* ===================================================================== *)

(** C1.  Grace-period hysteresis.  Whatever the gate's counter was, when
    frame 0 of a call has a speech probability above the threshold and no
    later frame has (for instance because its probability is 0 and the
    threshold is not negative), the frames 1 to 20 are pushed to the output
    ring buffer as the engine denoised them, and every frame from 21 on is
    pushed as [FRAMESIZE_NSAMPLES] zeros.  (The counter lives in the
    instance, and by [process_frames_app] the frames of several calls go
    through the gate as the frames of one call.) *)
Theorem grace_period_boundary (E : Denoiser) (vad_thresh : float)
  (tmpin : list float) (n : nat) (st0 : DenoiseState E) (g0 : Z)
  (ob : ringbuf_t) :
  n * FRAMESIZE_BYTES <= ringbuf_bytes_free ob ->
  F32.gt (speech_prob E st0 tmpin 0) vad_thresh = true ->
  (forall k, 1 <= k < n ->
     F32.gt (speech_prob E st0 tmpin k) vad_thresh = false) ->
  exists st1 g1 ob1,
    process_frames vad_thresh tmpin n (Some st0, g0, ob) = Ok (st1, g1, ob1) /\
    (forall k, 1 <= k <= 20 -> k < n ->
       emitted ob ob1 k = denoised E st0 tmpin k) /\
    (forall k, 21 <= k < n ->
       emitted ob ob1 k = repeat F32.zero FRAMESIZE_NSAMPLES).
Proof.
  intros Hroom H0 Hq.
  eexists _, _, _. split; [apply process_frames_trace; exact Hroom|].
  split; intros k Hk; [intros Hn|];
    rewrite emitted_gated by lia; unfold gated;
    rewrite (@passes_after_trigger E vad_thresh st0 tmpin g0 n k)
      by (assumption || lia).
  - destruct (Nat.leb_spec k 20); [reflexivity|lia].
  - destruct (Nat.leb_spec k 20); [lia|reflexivity].
Qed.

Lemma grace_period_boundary_witness :
  exists st1 g1 ob1,
    process_frames (E := echo_engine) half burst_then_quiet 26
      (Some 0, (-1)%Z, empty_ring) = Ok (st1, g1, ob1) /\
    (forall k, 1 <= k <= 20 -> k < 26 ->
       emitted empty_ring ob1 k = denoised echo_engine 0 burst_then_quiet k) /\
    (forall k, 21 <= k < 26 ->
       emitted empty_ring ob1 k = repeat F32.zero FRAMESIZE_NSAMPLES).
Proof.
  apply (@grace_period_boundary echo_engine half burst_then_quiet 26 0
           (-1)%Z empty_ring).
  - apply Nat.leb_le. vm_compute. reflexivity.
  - vm_compute. reflexivity.
  - intros k Hk.
    do 26 (destruct k as [|k]; [try lia; vm_compute; reflexivity|]). lia.
Defined.

Section QuietRun.

Variable E : Denoiser.
Variable vad_thresh : float.
Variable st0 : DenoiseState E.
Variable tmpin : list float.

Local Notation "'prob'" := (speech_prob E st0 tmpin).
Local Notation "'grace'" := (grace_after E vad_thresh st0 tmpin).

(** Over frames that stay at or below the threshold the counter counts
    down to [-1] and stays there. *)
Lemma grace_after_quiet_run (g0 : Z) (n : nat) :
  (forall k, k < n -> F32.gt (prob k) vad_thresh = false) ->
  grace g0 n
  = if (0 <=? g0)%Z then Z.max (g0 - Z.of_nat n) (-1) else g0.
Proof.
  induction n as [|n IH]; intros Hq.
  - cbn [grace_after]. destruct (Z.leb_spec 0 g0); lia.
  - rewrite grace_after_quiet by (apply Hq; lia).
    rewrite IH by (intros; apply Hq; lia).
    destruct (Z.leb_spec 0 g0);
      [destruct (Z.leb_spec 0 (Z.max (g0 - Z.of_nat n) (-1)))
      |destruct (Z.leb_spec 0 g0)]; lia.
Qed.

(** Only a frame above the threshold raises the counter. *)
Lemma grace_after_raised (g0 : Z) (n : nat) :
  (g0 < grace g0 n)%Z ->
  exists k, k < n /\ F32.gt (prob k) vad_thresh = true.
Proof.
  induction n as [|n IH]; intros Hlt.
  - cbn [grace_after] in Hlt. lia.
  - destruct (F32.gt (prob n) vad_thresh) eqn:Hp.
    + exists n. split; [lia|exact Hp].
    + rewrite grace_after_quiet in Hlt by exact Hp.
      destruct IH as [k [Hk Hgt]].
      * destruct (Z.leb_spec 0 (grace g0 n)); lia.
      * exists k. split; [lia|exact Hgt].
Qed.

End QuietRun.

(** C3, as the code has it.  A frame at or below the threshold decrements
    the counter only while the counter is not negative, so the counter has
    a floor: over any run of such frames it counts down from a value that
    is not negative to [-1] and stays there, and a negative counter is left
    as it is.  The counter is raised only by a frame above the threshold,
    and from [-1] or above it never goes below [-1]. *)
Theorem grace_counter_floor (E : Denoiser) (vad_thresh : float)
  (tmpin : list float) (n : nat) (st0 : DenoiseState E) (g0 : Z)
  (ob : ringbuf_t) :
  n * FRAMESIZE_BYTES <= ringbuf_bytes_free ob ->
  exists st1 g1 ob1,
    process_frames vad_thresh tmpin n (Some st0, g0, ob) = Ok (st1, g1, ob1) /\
    ((forall k, k < n ->
        F32.gt (speech_prob E st0 tmpin k) vad_thresh = false) ->
     g1 = if (0 <=? g0)%Z then Z.max (g0 - Z.of_nat n) (-1) else g0) /\
    ((g0 < g1)%Z ->
     exists k, k < n /\ F32.gt (speech_prob E st0 tmpin k) vad_thresh = true) /\
    ((-1 <= g0)%Z -> (-1 <= g1)%Z).
Proof.
  intros Hroom.
  eexists _, _, _. split; [apply process_frames_trace; exact Hroom|].
  split; [|split].
  - apply grace_after_quiet_run.
  - apply grace_after_raised.
  - apply grace_after_floor.
Qed.

Lemma grace_counter_floor_witness :
  exists st1 g1 ob1,
    process_frames (E := echo_engine) half (repeat F32.zero (2 * 480)) 2
      (Some 0, 0%Z, empty_ring) = Ok (st1, g1, ob1) /\
    ((forall k, k < 2 ->
        F32.gt (speech_prob echo_engine 0 (repeat F32.zero (2 * 480)) k) half
        = false) ->
     g1 = if (0 <=? 0)%Z then Z.max (0 - Z.of_nat 2) (-1) else 0%Z) /\
    ((0 < g1)%Z ->
     exists k, k < 2 /\
       F32.gt (speech_prob echo_engine 0 (repeat F32.zero (2 * 480)) k) half
       = true) /\
    ((-1 <= 0)%Z -> (-1 <= g1)%Z).
Proof.
  apply (@grace_counter_floor echo_engine half (repeat F32.zero (2 * 480)) 2
           0 0%Z empty_ring).
  apply Nat.leb_le. vm_compute. reflexivity.
Defined.

(** The claim of C3 fails on a closed gate: the frame is at or below the
    threshold, the counter is [-1] before it and still [-1] after it. *)
Lemma closed_gate_is_not_decremented :
  F32.gt (speech_prob echo_engine 0 (repeat F32.zero 480) 0) half = false /\
  counter_after
    (gate_frame (E := echo_engine) half (repeat F32.zero 480) 0
       (Some 0, (-1)%Z, empty_ring)) = Some (-1)%Z /\
  (-1)%Z <> (-1 - 1)%Z.
Proof.
  split; [vm_compute; reflexivity|].
  split; [vm_compute; reflexivity|lia].
Qed.

Lemma Some_eq (A : Type) (x y : A) : Some x = Some y -> x = y.
Proof. intros H. now injection H. Qed.

(** What [instantiateSimpleFilter] returns when it returns an instance. *)
Lemma instantiate_inv (E : Denoiser) (a : allocations) (rate : N)
  (f0 : rnnoiseFilter E) :
  instantiateSimpleFilter E a rate = Some f0 ->
  alloc_filter a = true /\
  remaining_grace_period f0 = VAD_GRACE_PERIOD /\
  st f0 = (if alloc_engine a then Some (rnnoise_create E) else None) /\
  in_buf f0 = ringbuf_new (alloc_in_buf a) (FRAMESIZE_BYTES * 100) /\
  out_buf f0 = ringbuf_new (alloc_out_buf a) (FRAMESIZE_BYTES * 100).
Proof.
  unfold instantiateSimpleFilter. intros H.
  destruct (alloc_filter a); [|discriminate].
  apply Some_eq in H. subst f0. repeat split.
Qed.

(** The counter of a reachable instance covers the frames of the first 21
    that the engine has not seen yet. *)
Lemma grace_covers_first_frames (E : Denoiser) (a : allocations) (rate : N)
  (f0 f : rnnoiseFilter (recording E)) :
  instantiateSimpleFilter (recording E) a rate = Some f0 ->
  reachable f0 f ->
  (VAD_GRACE_PERIOD - Z.of_nat (length (recorded f))
   <= remaining_grace_period f)%Z.
Proof.
  intros Hnew Hreach. induction Hreach as [|f Port loc _ IH|f f' m m' n _ IH Hrun].
  - destruct (@instantiate_inv _ _ _ _ Hnew) as (_ & -> & Hst & _).
    unfold recorded. rewrite Hst.
    destruct (alloc_engine a); cbn [recording rnnoise_create snd length];
      unfold VAD_GRACE_PERIOD; lia.
  - unfold recorded in *.
    destruct (connect_keeps f Port loc) as (-> & _ & _ & ->). exact IH.
  - apply runFilter_inv in Hrun.
    destruct Hrun as (inp & out & vad & ib & ob & sto1 & g1 & ob1 & ob2 &
                      _ & _ & _ & _ & _ & _ & Hloop & _ & ->).
    unfold recorded in *. cbn [st remaining_grace_period].
    apply process_frames_cases in Hloop.
    destruct Hloop as [(_ & -> & -> & _)|(s0 & Hs0 & _ & -> & -> & _)];
      [exact IH|].
    rewrite Hs0 in IH. rewrite recording_log, length_app, length_map, length_seq.
    match goal with
    | |- (_ <= grace_after ?E' ?th ?s ?t ?g ?k)%Z =>
        pose proof (grace_after_lower E' th s t g k)
    end.
    unfold VAD_GRACE_PERIOD in *. lia.
Qed.

(** C9.  [instantiateSimpleFilter] starts the counter at
    [VAD_GRACE_PERIOD].  Hence the first 21 frames that an instance
    processes, over however many calls, are pushed as the engine denoised
    them, whatever their speech probabilities and the thresholds: in any
    state that the instance reaches, with [recorded f] the frames processed
    since it was created, frame [k] of the next call is passed on as long
    as [length (recorded f) + k <= 20]. *)
Theorem fresh_instance_passes_21_frames (E : Denoiser) (a : allocations)
  (rate : N) (f0 f : rnnoiseFilter (recording E))
  (s : DenoiseState (recording E)) (vad_thresh : float) (tmpin : list float)
  (n : nat) (ob : ringbuf_t) :
  instantiateSimpleFilter (recording E) a rate = Some f0 ->
  reachable f0 f ->
  st f = Some s ->
  n * FRAMESIZE_BYTES <= ringbuf_bytes_free ob ->
  remaining_grace_period f0 = VAD_GRACE_PERIOD /\
  exists st1 g1 ob1,
    process_frames vad_thresh tmpin n (st f, remaining_grace_period f, ob)
    = Ok (st1, g1, ob1) /\
    forall k, k < n -> length (recorded f) + k <= 20 ->
      emitted ob ob1 k = denoised (recording E) s tmpin k.
Proof.
  intros Hnew Hreach Hs Hroom. split.
  - now destruct (@instantiate_inv _ _ _ _ Hnew) as (_ & -> & _).
  - pose proof (@grace_covers_first_frames E a rate f0 f Hnew Hreach) as Hcover.
    rewrite Hs. eexists _, _, _.
    split; [apply process_frames_trace; exact Hroom|].
    intros k Hk Hfirst. rewrite emitted_gated by exact Hk.
    unfold gated. rewrite passes_prefix; [reflexivity|].
    unfold VAD_GRACE_PERIOD in *. lia.
Qed.

Lemma fresh_instance_passes_21_frames_witness :
  remaining_grace_period (new_instance (recording echo_engine))
  = VAD_GRACE_PERIOD /\
  exists st1 g1 ob1,
    process_frames half (repeat F32.zero (22 * 480)) 22
      (st (new_instance (recording echo_engine)),
       remaining_grace_period (new_instance (recording echo_engine)),
       empty_ring)
    = Ok (st1, g1, ob1) /\
    forall k, k < 22 ->
      length (recorded (new_instance (recording echo_engine))) + k <= 20 ->
      emitted empty_ring ob1 k
      = denoised (recording echo_engine) (0, []) (repeat F32.zero (22 * 480)) k.
Proof.
  apply (@fresh_instance_passes_21_frames echo_engine all_ok 48000%N
           (new_instance (recording echo_engine))
           (new_instance (recording echo_engine))
           (0, []) half (repeat F32.zero (22 * 480)) 22 empty_ring).
  - reflexivity.
  - apply reach_start.
  - reflexivity.
  - apply Nat.leb_le. vm_compute. reflexivity.
Defined.

(** C10.  Every processed frame pushes [FRAMESIZE_BYTES] bytes and advances
    the engine, whether the gate passes or mutes it: after [n] frames the
    output ring buffer holds [n * FRAMESIZE_BYTES] more bytes and the engine
    is in the state that [n] frames lead to, and a run with any other
    threshold and any other counter ends with the same engine state and
    the same occupancy. *)
Theorem occupancy_and_engine_ignore_gate (E : Denoiser)
  (vad_thresh vad_thresh' : float) (tmpin : list float) (n : nat)
  (st0 : DenoiseState E) (g0 g0' : Z) (ob : ringbuf_t) :
  n * FRAMESIZE_BYTES <= ringbuf_bytes_free ob ->
  exists st1 g1 g1' ob1 ob1',
    process_frames vad_thresh tmpin n (Some st0, g0, ob) = Ok (st1, g1, ob1) /\
    process_frames vad_thresh' tmpin n (Some st0, g0', ob)
    = Ok (st1, g1', ob1') /\
    st1 = Some (engine_state E st0 tmpin n) /\
    ringbuf_bytes_used ob1 = ringbuf_bytes_used ob + n * FRAMESIZE_BYTES /\
    ringbuf_bytes_used ob1' = ringbuf_bytes_used ob1.
Proof.
  intros Hroom.
  eexists _, _, _, _, _.
  split; [apply process_frames_trace; exact Hroom|].
  split; [apply process_frames_trace; exact Hroom|].
  split; [reflexivity|].
  unfold ringbuf_bytes_used. cbn [rb_cells].
  rewrite !length_app, !gated_flat_length. sizes. lia.
Qed.

Lemma occupancy_and_engine_ignore_gate_witness :
  exists st1 g1 g1' ob1 ob1',
    process_frames (E := echo_engine) half burst_then_quiet 26
      (Some 0, (-1)%Z, empty_ring) = Ok (st1, g1, ob1) /\
    process_frames (E := echo_engine) (F32.of_int 2) burst_then_quiet 26
      (Some 0, 5%Z, empty_ring) = Ok (st1, g1', ob1') /\
    st1 = Some (engine_state echo_engine 0 burst_then_quiet 26) /\
    ringbuf_bytes_used ob1
    = ringbuf_bytes_used empty_ring + 26 * FRAMESIZE_BYTES /\
    ringbuf_bytes_used ob1' = ringbuf_bytes_used ob1.
Proof.
  apply (@occupancy_and_engine_ignore_gate echo_engine half (F32.of_int 2)
           burst_then_quiet 26 0 (-1)%Z 5%Z empty_ring).
  apply Nat.leb_le. vm_compute. reflexivity.
Defined.

(* ===================================================================== *)
(** ** The adapter: one call of runFilter *)
(* ===================================================================== *)

Lemma firstn_add (A : Type) (a b : nat) (l : list A) :
  firstn (a + b) l = firstn a l ++ firstn b (skipn a l).
Proof.
  revert l. induction a as [|a IH]; intros l; [reflexivity|].
  destruct l as [|x l]; cbn [Nat.add firstn skipn app].
  - now rewrite firstn_nil.
  - now rewrite IH.
Qed.

(** Cutting a buffer of whole frames into frames loses nothing, and every
    frame is whole. *)
Lemma frames_concat (t : list float) (k : nat) :
  concat (map (frame_at t) (seq 0 k)) = firstn (k * FRAMESIZE_NSAMPLES) t.
Proof.
  induction k as [|k IH]; [reflexivity|].
  rewrite seq_S, map_app, concat_app, IH. cbn [map concat Nat.add].
  rewrite app_nil_r. unfold frame_at.
  replace (S k * FRAMESIZE_NSAMPLES)
    with (k * FRAMESIZE_NSAMPLES + FRAMESIZE_NSAMPLES) by lia.
  now rewrite firstn_add.
Qed.

Lemma frame_at_length (t : list float) (n k : nat) :
  n * FRAMESIZE_NSAMPLES <= length t -> k < n ->
  length (frame_at t k) = FRAMESIZE_NSAMPLES.
Proof.
  intros Hlen Hk. unfold frame_at.
  rewrite length_firstn, length_skipn.
  assert (k * FRAMESIZE_NSAMPLES + FRAMESIZE_NSAMPLES
          <= n * FRAMESIZE_NSAMPLES) by nia.
  lia.
Qed.

(** C5.  A call within the capacities pushes the scaled block, pops
    exactly the [n_frames = bytes_used / FRAMESIZE_BYTES] whole frames that
    the input ring buffer then holds and leaves the remainder of
    [bytes_used mod FRAMESIZE_BYTES] bytes in it.  The engine is run on
    these [n_frames] frames and on nothing else, and each of them has
    [FRAMESIZE_NSAMPLES] samples: the frames that the recording engine
    logs during the call are the popped floats, cut into whole frames. *)
Theorem whole_frames_only (E : Denoiser) (f : rnnoiseFilter (recording E))
  (m : memory) (n : nat) :
  can_run f n ->
  exists f' m' ib inp frames,
    runFilter f m n = Ok (f', m') /\
    in_buf f = Some ib /\ m_pfInput f = Some inp /\
    let q := rb_cells ib
             ++ map (fun x => F32.mul x (F32.of_int 32767)) (load_n m inp n) in
    let n_frames :=
      (ringbuf_bytes_used ib + sizeof_float * n) / FRAMESIZE_BYTES in
    recorded f' = recorded f ++ frames /\
    length frames = n_frames /\
    (forall x, In x frames -> length x = FRAMESIZE_NSAMPLES) /\
    concat frames = firstn (n_frames * FRAMESIZE_NSAMPLES) q /\
    in_buf f'
    = Some {| rb_capacity := rb_capacity ib;
              rb_cells := skipn (n_frames * FRAMESIZE_NSAMPLES) q |} /\
    in_bytes f'
    = (ringbuf_bytes_used ib + sizeof_float * n) mod FRAMESIZE_BYTES.
Proof.
  intros H.
  destruct (can_run_inv H)
    as (st0 & ib & ob & inp & out & vad & Hst & Hib & Hob & Hinp & Hout
        & Hvad & Hin & Hroom).
  destruct (@runFilter_ok (recording E) f m n st0 ib ob inp out vad
              Hst Hib Hob Hinp Hout Hvad Hin Hroom) as [m' [Hrun _]].
  rewrite load_n_scale_input in Hrun.
  set (q := rb_cells ib
            ++ map (fun x => F32.mul x (F32.of_int 32767)) (load_n m inp n))
    in *.
  set (n_frames := (ringbuf_bytes_used ib + sizeof_float * n) / FRAMESIZE_BYTES)
    in *.
  set (tmpin := firstn (n_frames * FRAMESIZE_NSAMPLES) q) in *.
  assert (Hq : length q = length (rb_cells ib) + n).
  { unfold q. now rewrite length_app, length_map, load_n_length. }
  assert (Hfit : n_frames * FRAMESIZE_NSAMPLES <= length q).
  { rewrite Hq. unfold n_frames. sizes. lia. }
  eexists _, m', ib, inp, (map (frame_at tmpin) (seq 0 n_frames)).
  split; [exact Hrun|]. split; [exact Hib|]. split; [exact Hinp|].
  cbv zeta. fold q n_frames. unfold recorded, in_bytes.
  cbn [st in_buf]. rewrite Hst.
  split; [apply recording_log|].
  split; [now rewrite length_map, length_seq|].
  split; [|split; [|split; [reflexivity|]]].
  - intros x Hx. apply in_map_iff in Hx. destruct Hx as [k [<- Hk]].
    apply in_seq in Hk. apply frame_at_length with (n := n_frames); [|lia].
    unfold tmpin. rewrite length_firstn. lia.
  - rewrite frames_concat. unfold tmpin.
    rewrite firstn_firstn, Nat.min_id. reflexivity.
  - unfold ringbuf_bytes_used at 1. cbn [rb_cells].
    rewrite length_skipn, Hq. unfold n_frames. sizes. lia.
Qed.

Lemma wired_instance_can_run (E : Denoiser) (inp out n : nat) :
  n <= 100 * FRAMESIZE_NSAMPLES ->
  can_run (wired_instance E inp out) n.
Proof.
  intros Hn. unfold can_run, frames_ready, in_bytes, wired.
  cbn [wired_instance new_instance connectPortToSimpleFilter
         SF_VAD SF_INPUT SF_OUTPUT st in_buf out_buf m_pfVAD m_pfInput
         m_pfOutput].
  split; [reflexivity|].
  unfold ringbuf_bytes_free, ringbuf_bytes_used, empty_ring.
  cbn [rb_capacity rb_cells length]. sizes. lia.
Qed.

Lemma whole_frames_only_witness :
  can_run (wired_instance (recording echo_engine) 1000 2000) 500 /\
  exists f' m' ib inp frames,
    runFilter (wired_instance (recording echo_engine) 1000 2000)
      (block_memory 1000 500 (F32.of_int 1)) 500 = Ok (f', m') /\
    in_buf (wired_instance (recording echo_engine) 1000 2000) = Some ib /\
    m_pfInput (wired_instance (recording echo_engine) 1000 2000) = Some inp /\
    let q := rb_cells ib
             ++ map (fun x => F32.mul x (F32.of_int 32767))
                  (load_n (block_memory 1000 500 (F32.of_int 1)) inp 500) in
    let n_frames :=
      (ringbuf_bytes_used ib + sizeof_float * 500) / FRAMESIZE_BYTES in
    recorded f'
    = recorded (wired_instance (recording echo_engine) 1000 2000) ++ frames /\
    length frames = n_frames /\
    (forall x, In x frames -> length x = FRAMESIZE_NSAMPLES) /\
    concat frames = firstn (n_frames * FRAMESIZE_NSAMPLES) q /\
    in_buf f'
    = Some {| rb_capacity := rb_capacity ib;
              rb_cells := skipn (n_frames * FRAMESIZE_NSAMPLES) q |} /\
    in_bytes f'
    = (ringbuf_bytes_used ib + sizeof_float * 500) mod FRAMESIZE_BYTES.
Proof.
  assert (H : can_run (wired_instance (recording echo_engine) 1000 2000) 500).
  { apply wired_instance_can_run. unfold FRAMESIZE_NSAMPLES. lia. }
  split; [exact H|].
  apply (@whole_frames_only echo_engine
           (wired_instance (recording echo_engine) 1000 2000)
           (block_memory 1000 500 (F32.of_int 1)) 500 H).
Defined.

Lemma rescaled_zero : F32.div F32.zero (F32.of_int 32767) = F32.zero.
Proof. reflexivity. Qed.

(** C4.  The end of a call within the capacities.  With [q] the output
    ring buffer after the frame loop (what it held, then the frames pushed
    by this call) and [avail] the samples of its whole frames: when
    [avail < n_samples] the first [n_samples - avail] output samples are
    zero, the other [avail] are the oldest [avail] floats of [q], which
    are popped; otherwise the output is the oldest [n_samples] floats of
    [q], which are popped, and the rest of [q] stays buffered.  The samples
    that come from the ring buffer are divided by 32767 on the way out. *)
Theorem drain_to_host (E : Denoiser) (f : rnnoiseFilter E) (m : memory)
  (n : nat) :
  can_run f n ->
  exists f' m' out ob ob' pushed,
    runFilter f m n = Ok (f', m') /\
    m_pfOutput f = Some out /\ out_buf f = Some ob /\
    out_buf f' = Some ob' /\
    length pushed = frames_ready f n * FRAMESIZE_NSAMPLES /\
    let q := rb_cells ob ++ pushed in
    let avail :=
      sizeof_float * length q / FRAMESIZE_BYTES * FRAMESIZE_NSAMPLES in
    if avail <? n then
      (forall i, i < n - avail -> m' (out + i) = F32.zero) /\
      (forall i, i < avail ->
         m' (out + (n - avail) + i)
         = F32.div (nth i q F32.zero) (F32.of_int 32767)) /\
      rb_cells ob' = skipn avail q
    else
      (forall i, i < n ->
         m' (out + i) = F32.div (nth i q F32.zero) (F32.of_int 32767)) /\
      rb_cells ob' = skipn n q.
Proof.
  intros H.
  destruct (can_run_inv H)
    as (st0 & ib & ob & inp & out & vad & Hst & Hib & Hob & Hinp & Hout
        & Hvad & Hin & Hroom).
  destruct (@runFilter_ok E f m n st0 ib ob inp out vad
              Hst Hib Hob Hinp Hout Hvad Hin Hroom)
    as [m' [Hrun [_ Hblock]]].
  match type of Hrun with
  | context [flat_map ?g (seq 0 ?k)] => set (pushed := flat_map g (seq 0 k)) in *
  end.
  eexists _, m', out, ob, _, pushed.
  split; [exact Hrun|]. split; [exact Hout|]. split; [exact Hob|].
  cbn [out_buf]. split; [reflexivity|].
  split.
  { unfold pushed. rewrite gated_flat_length. unfold frames_ready, in_bytes.
    now rewrite Hib. }
  cbv zeta. cbn [rb_cells].
  unfold samples_avail, ringbuf_bytes_used in *. cbn [rb_cells] in *.
  set (q := rb_cells ob ++ pushed) in *.
  set (avail := sizeof_float * length q / FRAMESIZE_BYTES * FRAMESIZE_NSAMPLES)
    in *.
  assert (Havail : avail <= length q) by (unfold avail; sizes; lia).
  clearbody avail q.
  destruct (Nat.ltb_spec avail n) as [Hlt|Hge].
  - rewrite Nat.min_l by lia. split; [|split; [|reflexivity]].
    + intros i Hi. rewrite Hblock by lia.
      rewrite app_nth1 by (now rewrite repeat_length).
      rewrite nth_repeat. apply rescaled_zero.
    + intros i Hi. replace (out + (n - avail) + i) with (out + (n - avail + i))
        by lia.
      rewrite Hblock by lia.
      rewrite app_nth2 by (rewrite repeat_length; lia).
      rewrite repeat_length.
      replace (n - avail + i - (n - avail)) with i by lia. reflexivity.
  - rewrite Nat.min_r by lia. split; [|reflexivity].
    intros i Hi. rewrite Hblock by exact Hi.
    replace (n - avail) with 0 by lia. reflexivity.
Qed.

Lemma drain_to_host_witness :
  can_run (wired_instance echo_engine 1000 2000) 100 /\
  exists f' m' out ob ob' pushed,
    runFilter (wired_instance echo_engine 1000 2000)
      (block_memory 1000 100 (F32.of_int 1)) 100 = Ok (f', m') /\
    m_pfOutput (wired_instance echo_engine 1000 2000) = Some out /\
    out_buf (wired_instance echo_engine 1000 2000) = Some ob /\
    out_buf f' = Some ob' /\
    length pushed
    = frames_ready (wired_instance echo_engine 1000 2000) 100
      * FRAMESIZE_NSAMPLES /\
    let q := rb_cells ob ++ pushed in
    let avail :=
      sizeof_float * length q / FRAMESIZE_BYTES * FRAMESIZE_NSAMPLES in
    if avail <? 100 then
      (forall i, i < 100 - avail -> m' (out + i) = F32.zero) /\
      (forall i, i < avail ->
         m' (out + (100 - avail) + i)
         = F32.div (nth i q F32.zero) (F32.of_int 32767)) /\
      rb_cells ob' = skipn avail q
    else
      (forall i, i < 100 ->
         m' (out + i) = F32.div (nth i q F32.zero) (F32.of_int 32767)) /\
      rb_cells ob' = skipn 100 q.
Proof.
  assert (H : can_run (wired_instance echo_engine 1000 2000) 100).
  { apply wired_instance_can_run. unfold FRAMESIZE_NSAMPLES. lia. }
  split; [exact H|].
  apply (@drain_to_host echo_engine (wired_instance echo_engine 1000 2000)
           (block_memory 1000 100 (F32.of_int 1)) 100 H).
Defined.

(** C2, as the code has it.  The scaling is done in place, on the block
    that the input port points to, and it is not undone: after a call
    within the capacities every input cell that the output block does not
    overlap holds its previous value multiplied by 32767. *)
Theorem input_is_scaled_in_place (E : Denoiser) (f : rnnoiseFilter E)
  (m : memory) (n : nat) :
  can_run f n ->
  exists f' m' inp out,
    runFilter f m n = Ok (f', m') /\
    m_pfInput f = Some inp /\ m_pfOutput f = Some out /\
    forall i, i < n ->
      inp + i < out \/ out + n <= inp + i ->
      m' (inp + i) = F32.mul (m (inp + i)) (F32.of_int 32767).
Proof.
  intros H.
  destruct (can_run_inv H)
    as (st0 & ib & ob & inp & out & vad & Hst & Hib & Hob & Hinp & Hout
        & Hvad & Hin & Hroom).
  destruct (@runFilter_ok E f m n st0 ib ob inp out vad
              Hst Hib Hob Hinp Hout Hvad Hin Hroom)
    as [m' [Hrun [Hrest _]]].
  eexists _, m', inp, out.
  split; [exact Hrun|]. split; [exact Hinp|]. split; [exact Hout|].
  intros i Hi Hout_block. rewrite Hrest by exact Hout_block.
  unfold scale_input.
  apply (map_loop_in (fun x => F32.mul x (F32.of_int 32767)) m inp Hi).
Qed.

Lemma input_is_scaled_in_place_witness :
  can_run (wired_instance echo_engine 1000 2000) 1 /\
  exists f' m' inp out,
    runFilter (wired_instance echo_engine 1000 2000)
      (block_memory 1000 1 (F32.of_int 1)) 1 = Ok (f', m') /\
    m_pfInput (wired_instance echo_engine 1000 2000) = Some inp /\
    m_pfOutput (wired_instance echo_engine 1000 2000) = Some out /\
    forall i, i < 1 ->
      inp + i < out \/ out + 1 <= inp + i ->
      m' (inp + i)
      = F32.mul (block_memory 1000 1 (F32.of_int 1) (inp + i))
          (F32.of_int 32767).
Proof.
  assert (H : can_run (wired_instance echo_engine 1000 2000) 1).
  { apply wired_instance_can_run. unfold FRAMESIZE_NSAMPLES. lia. }
  split; [exact H|].
  apply (@input_is_scaled_in_place echo_engine
           (wired_instance echo_engine 1000 2000)
           (block_memory 1000 1 (F32.of_int 1)) 1 H).
Defined.

(** The claim of C2 fails: the input block is at address 1000, the output
    block at 2000; the input cell holds 1 before the call and 32767 after
    it. *)
Lemma host_input_is_overwritten :
  block_memory 1000 1 (F32.of_int 1) 1000 = F32.of_int 1 /\
  cell_after
    (runFilter (wired_instance echo_engine 1000 2000)
       (block_memory 1000 1 (F32.of_int 1)) 1) 1000
  = Some (F32.of_int 32767) /\
  F32.of_int 32767 <> F32.of_int 1.
Proof.
  split; [vm_compute; reflexivity|].
  split; [vm_compute; reflexivity|].
  vm_compute. discriminate.
Qed.

(* ===================================================================== *)
(** ** The backlog over many calls *)
(* ===================================================================== *)

(** One call keeps the backlog below two frames. *)
Lemma run_keeps_backlog (E : Denoiser) (f f' : rnnoiseFilter E)
  (m m' : memory) (n : nat) :
  runFilter f m n = Ok (f', m') ->
  in_bytes f + out_bytes f < 2 * FRAMESIZE_BYTES ->
  in_bytes f' < FRAMESIZE_BYTES /\
  in_bytes f' + out_bytes f' < 2 * FRAMESIZE_BYTES.
Proof.
  intros Hrun Hinv. apply runFilter_inv in Hrun.
  destruct Hrun as (inp & out & vad & ib & ob & sto1 & g1 & ob1 & ob2 &
                    _ & _ & _ & Hib & Hob & _ & Hloop & Hdrain & ->).
  apply process_frames_size in Hloop. destruct Hloop as (_ & Hlen & _).
  destruct (drain_output_ok ob1 (scale_input m inp n) out n)
    as [m'' [Heq _]].
  rewrite Heq in Hdrain. clear Heq.
  assert (Hob2 : rb_cells ob2
                 = skipn (Nat.min (samples_avail ob1) n) (rb_cells ob1)).
  { destruct ob2 as [c2 l2]. cbn [rb_cells].
    assert (Hr : forall A (x y : A), Ok x = Ok y -> x = y)
      by (intros A x y Hxy; now injection Hxy).
    apply Hr in Hdrain. now injection Hdrain. }
  revert Hinv. unfold in_bytes, out_bytes. rewrite Hib, Hob.
  cbn [in_buf out_buf]. unfold samples_avail, ringbuf_bytes_used in *.
  cbn [rb_cells]. rewrite Hob2, !length_skipn, length_app, load_n_length, Hlen.
  generalize (length (rb_cells ib)) (length (rb_cells ob)).
  clear. intros a b Hinv. sizes. lia.
Qed.

(** C6, as the code has it.  Over any sequence of calls, of any block
    lengths, the input ring buffer holds less than one frame and the two
    ring buffers together hold less than two frames: the backlog does not
    grow with the number of calls.  (The bound is two frames, whatever the
    block lengths, not one frame plus the largest block.) *)
Theorem backlog_stays_below_two_frames (E : Denoiser) (a : allocations)
  (rate : N) (f0 f : rnnoiseFilter E) :
  instantiateSimpleFilter E a rate = Some f0 ->
  reachable f0 f ->
  in_bytes f < FRAMESIZE_BYTES /\
  in_bytes f + out_bytes f < 2 * FRAMESIZE_BYTES.
Proof.
  intros Hnew Hreach.
  induction Hreach as [|f Port loc _ IH|f f' m m' n _ IH Hrun].
  - destruct (@instantiate_inv _ _ _ _ Hnew) as (_ & _ & _ & Hin & Hout).
    unfold in_bytes, out_bytes. rewrite Hin, Hout. unfold ringbuf_new.
    destruct (alloc_in_buf a); destruct (alloc_out_buf a);
      unfold ringbuf_bytes_used; cbn [rb_cells length]; sizes; lia.
  - unfold in_bytes, out_bytes in *.
    destruct (connect_keeps f Port loc) as (_ & -> & -> & _). exact IH.
  - apply (@run_keeps_backlog E f f' m m' n Hrun). lia.
Qed.

Lemma backlog_stays_below_two_frames_witness :
  in_bytes
    (instance_after (wired_instance echo_engine 1 501)
       (runFilter (wired_instance echo_engine 1 501)
          (block_memory 1 500 (F32.of_int 1)) 500)) < FRAMESIZE_BYTES /\
  in_bytes
    (instance_after (wired_instance echo_engine 1 501)
       (runFilter (wired_instance echo_engine 1 501)
          (block_memory 1 500 (F32.of_int 1)) 500))
  + out_bytes
      (instance_after (wired_instance echo_engine 1 501)
         (runFilter (wired_instance echo_engine 1 501)
            (block_memory 1 500 (F32.of_int 1)) 500))
  < 2 * FRAMESIZE_BYTES.
Proof.
  apply (@backlog_stays_below_two_frames echo_engine all_ok 48000%N
           (new_instance echo_engine)).
  - reflexivity.
  - apply reach_run
      with (f := wired_instance echo_engine 1 501)
           (m := block_memory 1 500 (F32.of_int 1))
           (m' := memory_after (block_memory 1 500 (F32.of_int 1))
                    (runFilter (wired_instance echo_engine 1 501)
                       (block_memory 1 500 (F32.of_int 1)) 500))
           (n_samples := 500).
    + unfold wired_instance. repeat apply reach_connect. apply reach_start.
    + assert (Hok : is_ok (runFilter (wired_instance echo_engine 1 501)
                             (block_memory 1 500 (F32.of_int 1)) 500)
                    = true) by (vm_compute; reflexivity).
      revert Hok.
      destruct (runFilter (wired_instance echo_engine 1 501)
                  (block_memory 1 500 (F32.of_int 1)) 500)
        as [[f' m']|e]; [reflexivity|discriminate].
Defined.

(** The claim of C6 fails for blocks shorter than a frame.  After ten calls
    of 100 samples the output ring buffer holds 3040 bytes; one frame plus
    the largest block is 1920 + 400 bytes. *)
Lemma backlog_exceeds_frame_plus_block :
  backlog_after (host_calls (one_instance_world echo_engine)
                   (repeat call_100 10)) 0 = Some (160, 3040) /\
  ~ 3040 < FRAMESIZE_BYTES + 100 * sizeof_float.
Proof.
  split; [vm_compute; reflexivity|].
  unfold FRAMESIZE_BYTES, sizeof_float. lia.
Qed.

(* ===================================================================== *)
(** ** Construction *)
(* ===================================================================== *)

(** C7.  [instantiateSimpleFilter] returns a null handle when the
    allocation of the instance itself fails, but it does not look at what
    [ringbuf_new] and [rnnoise_create] return: when the instance is
    allocated and the input ring buffer is not, the host receives an
    instance whose [in_buf] is null, and the first call of [runFilter] on
    it, once its ports are connected, uses the null handle. *)
Theorem instantiate_leaves_partial_instance (E : Denoiser) (rate : N) :
  (forall a, alloc_filter a = false ->
     instantiateSimpleFilter E a rate = None) /\
  exists f,
    instantiateSimpleFilter E no_input_ring rate = Some f /\
    in_buf f = None /\
    forall m n,
      runFilter
        (connectPortToSimpleFilter
           (connectPortToSimpleFilter
              (connectPortToSimpleFilter f SF_VAD 0) SF_INPUT 1000)
           SF_OUTPUT 2000) m n
      = Fault NullPointer.
Proof.
  split.
  - intros a Ha. unfold instantiateSimpleFilter. now rewrite Ha.
  - eexists. split; [reflexivity|]. split; reflexivity.
Qed.

(* ===================================================================== *)
(** ** Several instances *)
(* ===================================================================== *)

Section Independence.

Variable E : Denoiser.

(** What a call returns depends on the memory only through the control
    value and the input block. *)
Lemma runFilter_footprint (f : rnnoiseFilter E) (m m2 : memory) (n : nat)
  (inp out vad : addr) :
  m_pfInput f = Some inp -> m_pfOutput f = Some out ->
  m_pfVAD f = Some vad ->
  m vad = m2 vad ->
  (forall i, i < n -> m (inp + i) = m2 (inp + i)) ->
  match runFilter f m n, runFilter f m2 n with
  | Ok (f1, m1), Ok (f2, m2') => f1 = f2 /\ load_n m1 out n = load_n m2' out n
  | Fault e1, Fault e2 => e1 = e2
  | _, _ => False
  end.
Proof.
  intros Hinp Hout Hvad Hv Hblock.
  unfold runFilter. rewrite Hinp, Hout, Hvad. cbn [port bind]. rewrite <- Hv.
  destruct (in_buf f) as [ib|]; cbn [deref bind]; [|reflexivity].
  unfold feed_input.
  assert (Hload : load_n (scale_input m inp n) inp n
                  = load_n (scale_input m2 inp n) inp n).
  { rewrite !load_n_scale_input. f_equal. apply load_n_ext. exact Hblock. }
  rewrite <- Hload.
  destruct (ringbuf_memcpy_into ib (load_n (scale_input m inp n) inp n))
    as [ib1|e]; cbn [bind]; [|reflexivity].
  destruct (ringbuf_memcpy_from ib1 _) as [[tmpin ib2]|e]; cbn [bind];
    [|reflexivity].
  destruct (out_buf f) as [ob|]; cbn [deref bind]; [|reflexivity].
  destruct (process_frames _ tmpin _ _) as [[[sto1 g1] ob1]|e]; cbn [bind];
    [|reflexivity].
  destruct (drain_output_ok ob1 (scale_input m inp n) out n)
    as [ma [-> [_ Ha]]].
  destruct (drain_output_ok ob1 (scale_input m2 inp n) out n)
    as [mb [-> [_ Hb]]].
  cbn [bind]. split; [reflexivity|].
  apply load_n_ext. intros i Hi. now rewrite Ha, Hb.
Qed.

(** A callback on an instance gives the same output and the same next
    state in two worlds that agree on that instance. *)
Lemma host_call_same (w w2 : world E) (c : call) :
  instances w (call_handle c) = instances w2 (call_handle c) ->
  match host_call w c, host_call w2 c with
  | Ok (w', o), Ok (w2', o2) =>
      o = o2 /\
      instances w' (call_handle c) = instances w2' (call_handle c)
  | Fault e1, Fault e2 => e1 = e2
  | _, _ => False
  end.
Proof.
  intros Hsame. unfold host_call. rewrite <- Hsame.
  destruct (instances w (call_handle c)) as [f|]; cbn [deref bind];
    [|reflexivity].
  destruct (m_pfInput f) as [inp|] eqn:Hinp; cbn [port bind]; [|reflexivity].
  destruct (m_pfOutput f) as [out|] eqn:Hout; cbn [port bind]; [|reflexivity].
  destruct (m_pfVAD f) as [vad|] eqn:Hvad; cbn [port bind]; [|reflexivity].
  set (n := length (call_input c)).
  set (m0 := store (store_list (mem w) inp (call_input c)) vad (call_vad c)).
  set (m0' := store (store_list (mem w2) inp (call_input c)) vad (call_vad c)).
  assert (Hv : m0 vad = m0' vad) by (unfold m0, m0'; now rewrite !store_eq).
  assert (Hblock : forall i, i < n -> m0 (inp + i) = m0' (inp + i)).
  { intros i Hi. unfold m0, m0'.
    destruct (Nat.eq_dec (inp + i) vad) as [->|Hne].
    - now rewrite !store_eq.
    - rewrite !store_neq by exact Hne. now rewrite !store_list_in by exact Hi. }
  pose proof (@runFilter_footprint f m0 m0' n inp out vad
                Hinp Hout Hvad Hv Hblock) as Hfp.
  destruct (runFilter f m0 n) as [[f1 m1]|e1];
    destruct (runFilter f m0' n) as [[f2 m2]|e2]; cbn [bind];
    try contradiction; [|exact Hfp].
  destruct Hfp as [-> Hout_eq]. cbn [instances].
  split; [exact Hout_eq|].
  unfold set_instance. now rewrite Nat.eqb_refl.
Qed.

(** A callback on another instance leaves the instance as it is. *)
Lemma host_call_other (w w' : world E) (c : call) (h : handle)
  (o : list float) :
  call_handle c <> h ->
  host_call w c = Ok (w', o) ->
  instances w' h = instances w h.
Proof.
  intros Hne. unfold host_call.
  destruct (instances w (call_handle c)) as [f|]; cbn [deref bind];
    [|discriminate].
  destruct (m_pfInput f) as [inp|]; cbn [port bind]; [|discriminate].
  destruct (m_pfOutput f) as [out|]; cbn [port bind]; [|discriminate].
  destruct (m_pfVAD f) as [vad|]; cbn [port bind]; [|discriminate].
  destruct (runFilter f _ _) as [[f1 m1]|e]; cbn [bind]; [|discriminate].
  intros H. injection H as <- _. cbn [instances]. unfold set_instance.
  destruct (Nat.eqb_spec h (call_handle c)); [congruence|reflexivity].
Qed.

End Independence.

(** C8.  Instances are independent.  When a host drives several instances
    in any interleaving of callbacks, the outputs that instance [h] gives
    are the outputs that it gives when only its own callbacks are made:
    in any other world [w1] that has the same instance at [h], whatever
    its memory and its other instances, the callbacks of [h] alone return
    the same blocks and leave [h] in the same state. *)
Theorem instances_are_independent (E : Denoiser) (h : handle)
  (cs : list call) (w w1 w' : world E) (os : list (handle * list float)) :
  instances w1 h = instances w h ->
  host_calls w cs = Ok (w', os) ->
  exists w1' os1,
    host_calls w1 (calls_of h cs) = Ok (w1', os1) /\
    map snd os1 = outputs_of h os /\
    instances w1' h = instances w' h.
Proof.
  revert w w1 w' os. induction cs as [|c cs IH]; intros w w1 w' os Hsame Hrun.
  - cbn in Hrun. injection Hrun as <- <-. exists w1, []. now cbn.
  - cbn [host_calls] in Hrun.
    destruct (host_call w c) as [[wa o]|e] eqn:Hc; cbn [bind] in Hrun;
      [|discriminate].
    destruct (host_calls wa cs) as [[wb os']|e] eqn:Hcs; cbn [bind] in Hrun;
      [|discriminate].
    injection Hrun as <- <-.
    unfold calls_of, outputs_of. cbn [filter fst].
    destruct (Nat.eqb_spec (call_handle c) h) as [Hh|Hh].
    + subst h. pose proof (@host_call_same E w1 w c Hsame) as Hstep.
      rewrite Hc in Hstep.
      destruct (host_call w1 c) as [[w1a o1]|e] eqn:Hc1; [|contradiction].
      destruct Hstep as [-> Hnext].
      destruct (IH wa w1a wb os' Hnext Hcs) as (w1' & os1 & Hrun1 & Hout & Hst).
      exists w1', ((call_handle c, o) :: os1).
      cbn [host_calls]. rewrite Hc1. cbn [bind].
      fold (calls_of (call_handle c) cs). rewrite Hrun1. cbn [bind].
      split; [reflexivity|]. split; [|exact Hst].
      cbn [map snd]. f_equal. exact Hout.
    + assert (Hkeep : instances w1 h = instances wa h).
      { rewrite Hsame. symmetry. eapply host_call_other; eassumption. }
      exact (IH wa w1 wb os' Hkeep Hcs).
Qed.

Lemma instances_are_independent_witness :
  exists w1' os1,
    host_calls (one_instance_world echo_engine) (calls_of 0 interleaved)
    = Ok (w1', os1) /\
    map snd os1
    = outputs_of 0
        (outputs_after
           (host_calls (two_instance_world echo_engine) interleaved)) /\
    instances w1' 0
    = instances
        (world_after (two_instance_world echo_engine)
           (host_calls (two_instance_world echo_engine) interleaved)) 0.
Proof.
  apply (@instances_are_independent echo_engine 0 interleaved
           (two_instance_world echo_engine) (one_instance_world echo_engine)
           (world_after (two_instance_world echo_engine)
              (host_calls (two_instance_world echo_engine) interleaved))
           (outputs_after
              (host_calls (two_instance_world echo_engine) interleaved))).
  - reflexivity.
  - assert (Hok : is_ok (host_calls (two_instance_world echo_engine)
                           interleaved) = true) by (vm_compute; reflexivity).
    revert Hok.
    destruct (host_calls (two_instance_world echo_engine) interleaved)
      as [[w' os]|e]; [reflexivity|discriminate].
Defined.

(* ===================================================================== *)
(** ** Calls never fault in a running instance *)
(* ===================================================================== *)

Section Healthy.

Variable E : Denoiser.

Lemma connect_keeps_wired (f : rnnoiseFilter E) (Port : nat) (loc : addr) :
  wired f = true -> wired (connectPortToSimpleFilter f Port loc) = true.
Proof.
  unfold wired. destruct f as [s i o g z v p q].
  destruct Port as [|[|[|Port]]]; cbn;
    destruct s, i, o, v, p, q; intros H; try discriminate; reflexivity.
Qed.

Lemma run_keeps_healthy (f f' : rnnoiseFilter E) (m m' : memory) (n : nat) :
  healthy f -> runFilter f m n = Ok (f', m') -> healthy f'.
Proof.
  intros (Hw & (ib0 & ob0 & Hib0 & Hob0 & Hci & Hco) & Hback) Hrun.
  pose proof (@run_keeps_backlog E f f' m m' n Hrun Hback) as [_ Hback'].
  apply runFilter_inv in Hrun.
  destruct Hrun as (inp & out & vad & ib & ob & sto1 & g1 & ob1 & ob2 &
                    Hinp & Hout & Hvad & Hib & Hob & _ & Hloop & Hdrain & Hf').
  rewrite Hib in Hib0. rewrite Hob in Hob0.
  apply Some_eq in Hib0. apply Some_eq in Hob0. subst ib0 ob0.
  assert (Hcap : rb_capacity ob2 = rb_capacity ob).
  { destruct (drain_output_ok ob1 (scale_input m inp n) out n)
      as [m'' [Heq _]].
    rewrite Heq in Hdrain.
    assert (Hr : forall A (x y : A), Ok x = Ok y -> x = y)
      by (intros A x y Hxy; now injection Hxy).
    apply Hr in Hdrain. apply (f_equal fst) in Hdrain. cbn [fst] in Hdrain.
    rewrite <- Hdrain. cbn [rb_capacity].
    now destruct (process_frames_size _ _ _ _ _ _ Hloop) as [-> _]. }
  assert (Hst1 : exists s1, sto1 = Some s1).
  { apply process_frames_cases in Hloop.
    destruct Hloop as [(_ & -> & _)|(s0 & _ & _ & -> & _)]; [|eauto].
    unfold wired in Hw. destruct (st f) as [s|]; [eauto|discriminate]. }
  destruct Hst1 as [s1 ->].
  split; [|split; [|exact Hback']].
  - subst f'. unfold wired. cbn [st in_buf out_buf m_pfVAD m_pfInput m_pfOutput].
    now rewrite Hvad, Hinp, Hout.
  - subst f'. cbn [in_buf out_buf]. eexists _, ob2.
    split; [reflexivity|]. split; [reflexivity|].
    cbn [rb_capacity]. split; [exact Hci|]. now rewrite Hcap.
Qed.

Lemma reachable_healthy (inp out : addr) (f : rnnoiseFilter E) :
  reachable (wired_instance E inp out) f -> healthy f.
Proof.
  intros Hreach.
  induction Hreach as [|f Port loc _ IH|f f' m m' n _ IH Hrun].
  - split; [reflexivity|]. split.
    + exists empty_ring, empty_ring. repeat split.
    + unfold in_bytes, out_bytes.
      cbn [wired_instance new_instance connectPortToSimpleFilter
             SF_VAD SF_INPUT SF_OUTPUT in_buf out_buf].
      unfold ringbuf_bytes_used, empty_ring. cbn [rb_cells length].
      sizes. lia.
  - destruct IH as (Hw & (ib & ob & Hib & Hob & Hci & Hco) & Hback).
    destruct (connect_keeps f Port loc) as (_ & Hi & Ho & _).
    split; [now apply connect_keeps_wired|]. split.
    + exists ib, ob. rewrite Hi, Ho. tauto.
    + unfold in_bytes, out_bytes in *. now rewrite Hi, Ho.
  - exact (@run_keeps_healthy f f' m m' n IH Hrun).
Qed.

(** In every state that a wired instance reaches, a call of up to 98
    frames' worth of samples is within the capacities, so it returns. *)
Lemma reachable_can_run (inp out : addr) (f : rnnoiseFilter E) (n : nat) :
  reachable (wired_instance E inp out) f ->
  n <= 98 * FRAMESIZE_NSAMPLES ->
  can_run f n.
Proof.
  intros Hreach Hn. apply reachable_healthy in Hreach.
  destruct Hreach as (Hw & (ib & ob & Hib & Hob & Hci & Hco) & Hback).
  split; [exact Hw|]. revert Hback. unfold frames_ready, in_bytes, out_bytes.
  rewrite Hib, Hob. unfold ringbuf_bytes_free. rewrite Hci, Hco.
  generalize (ringbuf_bytes_used ib) (ringbuf_bytes_used ob).
  clear - Hn. intros a b Hback. sizes. lia.
Qed.

End Healthy.

(* ===================================================================== *)
(** ** Further properties of runFilter *)
(* ===================================================================== *)

(** A call that returns, with the instance and the memory it returns. *)
Lemma run_result (E : Denoiser) (f : rnnoiseFilter E) (m : memory) (n : nat) :
  is_ok (runFilter f m n) = true ->
  runFilter f m n
  = Ok (instance_after f (runFilter f m n), memory_after m (runFilter f m n)).
Proof.
  destruct (runFilter f m n) as [[f' m']|e]; [reflexivity|discriminate].
Qed.

Lemma Ok_eq (A : Type) (x y : A) : Ok x = Ok y -> x = y.
Proof. intros H. now injection H. Qed.

(** X1.  A call writes to the input block and to the output block and to
    nothing else: every cell of the host's memory outside
    [inp, inp + n_samples) and [out, out + n_samples) holds after the call
    what it held before, the control value included when it lies outside
    the two blocks. *)
Theorem run_writes_only_its_blocks (E : Denoiser) (f f' : rnnoiseFilter E)
  (m m' : memory) (n : nat) (inp out a : addr) :
  runFilter f m n = Ok (f', m') ->
  m_pfInput f = Some inp ->
  m_pfOutput f = Some out ->
  a < inp \/ inp + n <= a ->
  a < out \/ out + n <= a ->
  m' a = m a.
Proof.
  intros Hrun Hinp Hout Ha_in Ha_out. apply runFilter_inv in Hrun.
  destruct Hrun as (inp' & out' & vad & ib & ob & sto1 & g1 & ob1 & ob2 &
                    Hinp' & Hout' & _ & _ & _ & _ & _ & Hdrain & _).
  rewrite Hinp in Hinp'. rewrite Hout in Hout'.
  apply Some_eq in Hinp'. apply Some_eq in Hout'. subst inp' out'.
  destruct (drain_output_ok ob1 (scale_input m inp n) out n)
    as [m'' [Heq [Hrest _]]].
  rewrite Heq in Hdrain. apply Ok_eq in Hdrain.
  apply (f_equal snd) in Hdrain. cbn [snd] in Hdrain. subst m''.
  rewrite Hrest by exact Ha_out. unfold scale_input.
  apply (map_loop_out (fun x => F32.mul x (F32.of_int 32767)) n m Ha_in).
Qed.

Lemma run_writes_only_its_blocks_witness :
  memory_after (block_memory 10 3 (F32.of_int 1))
    (runFilter (wired_instance echo_engine 10 20)
       (block_memory 10 3 (F32.of_int 1)) 3) 0
  = block_memory 10 3 (F32.of_int 1) 0.
Proof.
  apply (@run_writes_only_its_blocks echo_engine
           (wired_instance echo_engine 10 20)
           (instance_after (wired_instance echo_engine 10 20)
              (runFilter (wired_instance echo_engine 10 20)
                 (block_memory 10 3 (F32.of_int 1)) 3))
           (block_memory 10 3 (F32.of_int 1))
           (memory_after (block_memory 10 3 (F32.of_int 1))
              (runFilter (wired_instance echo_engine 10 20)
                 (block_memory 10 3 (F32.of_int 1)) 3))
           3 10 20 0).
  - apply run_result. vm_compute. reflexivity.
  - reflexivity.
  - reflexivity.
  - left. apply Nat.ltb_lt. reflexivity.
  - left. apply Nat.ltb_lt. reflexivity.
Defined.

Lemma load_n_same (m m2 : memory) (p p2 n : nat) :
  (forall i, i < n -> m (p + i) = m2 (p2 + i)) ->
  load_n m p n = load_n m2 p2 n.
Proof.
  intros H. unfold load_n. apply map_ext_in.
  intros i Hi. apply in_seq in Hi. apply H. lia.
Qed.

(** X2.  What a call puts out does not depend on where the ports point.
    Two instances in the same audio state, wired to any addresses, that
    find the same control value and the same input samples, return the same
    output samples and end in the same audio state.  So an instance may be
    re-wired between calls, and input and output may be one block
    (in-place processing), without any effect on the audio. *)
Theorem output_ignores_port_addresses (E : Denoiser)
  (f f2 : rnnoiseFilter E) (m m2 : memory) (n : nat)
  (inp out vad inp2 out2 vad2 : addr) :
  can_run f n ->
  m_pfInput f = Some inp -> m_pfOutput f = Some out ->
  m_pfVAD f = Some vad ->
  m_pfInput f2 = Some inp2 -> m_pfOutput f2 = Some out2 ->
  m_pfVAD f2 = Some vad2 ->
  same_audio_state f f2 ->
  m vad = m2 vad2 ->
  (forall i, i < n -> m (inp + i) = m2 (inp2 + i)) ->
  exists f' m' f2' m2',
    runFilter f m n = Ok (f', m') /\
    runFilter f2 m2 n = Ok (f2', m2') /\
    load_n m' out n = load_n m2' out2 n /\
    same_audio_state f' f2'.
Proof.
  intros Hcan Hinp Hout Hvad Hinp2 Hout2 Hvad2 (Hst2 & Hib2 & Hob2 & Hg2)
    Hv Hblock.
  destruct (can_run_inv Hcan)
    as (st0 & ib & ob & inp' & out' & vad' & Hst & Hib & Hob & Hinp' & Hout'
        & Hvad' & Hin & Hroom).
  rewrite Hst in Hst2. rewrite Hib in Hib2. rewrite Hob in Hob2.
  destruct (@runFilter_ok E f m n st0 ib ob inp out vad
              Hst Hib Hob Hinp Hout Hvad Hin Hroom)
    as [m' [Hrun [_ Hblock1]]].
  destruct (@runFilter_ok E f2 m2 n st0 ib ob inp2 out2 vad2
              Hst2 Hib2 Hob2 Hinp2 Hout2 Hvad2 Hin Hroom)
    as [m2' [Hrun2 [_ Hblock2]]].
  assert (Hload : load_n (scale_input m2 inp2 n) inp2 n
                  = load_n (scale_input m inp n) inp n).
  { rewrite !load_n_scale_input. f_equal. symmetry.
    apply load_n_same. exact Hblock. }
  rewrite Hload, <- Hv, Hg2 in Hrun2. rewrite Hload, <- Hv, Hg2 in Hblock2.
  eexists _, m', _, m2'.
  split; [exact Hrun|]. split; [exact Hrun2|]. split.
  - apply load_n_same. intros i Hi. now rewrite Hblock1, Hblock2.
  - repeat split.
Qed.

Lemma output_ignores_port_addresses_witness :
  exists f' m' f2' m2',
    runFilter (wired_instance echo_engine 10 20)
      (block_memory 10 3 (F32.of_int 1)) 3 = Ok (f', m') /\
    runFilter (wired_instance echo_engine 10 10)
      (block_memory 10 3 (F32.of_int 1)) 3 = Ok (f2', m2') /\
    load_n m' 20 3 = load_n m2' 10 3 /\
    same_audio_state f' f2'.
Proof.
  apply (@output_ignores_port_addresses echo_engine
           (wired_instance echo_engine 10 20)
           (wired_instance echo_engine 10 10)
           (block_memory 10 3 (F32.of_int 1))
           (block_memory 10 3 (F32.of_int 1)) 3 10 20 0 10 10 0).
  - apply wired_instance_can_run. unfold FRAMESIZE_NSAMPLES. lia.
  - reflexivity.
  - reflexivity.
  - reflexivity.
  - reflexivity.
  - reflexivity.
  - reflexivity.
  - repeat split.
  - reflexivity.
  - intros i _. reflexivity.
Defined.

Lemma ring_eta (rb : ringbuf_t) :
  {| rb_capacity := rb_capacity rb; rb_cells := rb_cells rb |} = rb.
Proof. now destruct rb. Qed.

Lemma no_whole_frame (rb : ringbuf_t) :
  ringbuf_bytes_used rb < FRAMESIZE_BYTES -> samples_avail rb = 0.
Proof.
  intros H. unfold samples_avail. now rewrite Nat.div_small by exact H.
Qed.

(** X3.  Silence while no frame is complete.  When the block of a call
    does not complete a frame and the output ring buffer holds less than
    one frame, as in the first calls of a stream of short blocks, the call
    returns a block of zeros; the scaled input is appended to the input
    ring buffer, and the engine, the grace counter and the output ring
    buffer stay as they are. *)
Theorem short_block_gives_silence (E : Denoiser) (f : rnnoiseFilter E)
  (m : memory) (n : nat) :
  can_run f n ->
  frames_ready f n = 0 ->
  out_bytes f < FRAMESIZE_BYTES ->
  exists f' m' inp out ib,
    runFilter f m n = Ok (f', m') /\
    m_pfInput f = Some inp /\ m_pfOutput f = Some out /\
    in_buf f = Some ib /\
    (forall i, i < n -> m' (out + i) = F32.zero) /\
    in_buf f'
    = Some {| rb_capacity := rb_capacity ib;
              rb_cells :=
                rb_cells ib
                ++ map (fun x => F32.mul x (F32.of_int 32767))
                     (load_n m inp n) |} /\
    out_buf f' = out_buf f /\
    st f' = st f /\
    remaining_grace_period f' = remaining_grace_period f.
Proof.
  intros Hcan Hnone Hshort.
  destruct (can_run_inv Hcan)
    as (st0 & ib & ob & inp & out & vad & Hst & Hib & Hob & Hinp & Hout
        & Hvad & Hin & Hroom).
  destruct (@runFilter_ok E f m n st0 ib ob inp out vad
              Hst Hib Hob Hinp Hout Hvad Hin Hroom)
    as [m' [Hrun [_ Hblock]]].
  unfold frames_ready, in_bytes in Hnone. rewrite Hib in Hnone.
  unfold out_bytes in Hshort. rewrite Hob in Hshort.
  rewrite Hnone in Hrun, Hblock.
  cbn [seq flat_map Nat.mul firstn skipn engine_state grace_after]
    in Hrun, Hblock.
  rewrite app_nil_r, ring_eta in Hrun, Hblock.
  rewrite (@no_whole_frame ob Hshort) in Hrun, Hblock.
  cbn [Nat.min skipn] in Hrun. rewrite ring_eta in Hrun.
  rewrite load_n_scale_input in Hrun.
  eexists _, m', inp, out, ib.
  split; [exact Hrun|]. cbn [in_buf out_buf st remaining_grace_period].
  repeat split; try assumption; try (symmetry; assumption).
  intros i Hi. rewrite Hblock by exact Hi.
  rewrite app_nth1 by (rewrite repeat_length; lia).
  rewrite nth_repeat. apply rescaled_zero.
Qed.

Lemma short_block_gives_silence_witness :
  can_run (wired_instance echo_engine 1000 2000) 100 /\
  exists f' m' inp out ib,
    runFilter (wired_instance echo_engine 1000 2000)
      (block_memory 1000 100 (F32.of_int 1)) 100 = Ok (f', m') /\
    m_pfInput (wired_instance echo_engine 1000 2000) = Some inp /\
    m_pfOutput (wired_instance echo_engine 1000 2000) = Some out /\
    in_buf (wired_instance echo_engine 1000 2000) = Some ib /\
    (forall i, i < 100 -> m' (out + i) = F32.zero) /\
    in_buf f'
    = Some {| rb_capacity := rb_capacity ib;
              rb_cells :=
                rb_cells ib
                ++ map (fun x => F32.mul x (F32.of_int 32767))
                     (load_n (block_memory 1000 100 (F32.of_int 1)) inp 100) |} /\
    out_buf f' = out_buf (wired_instance echo_engine 1000 2000) /\
    st f' = st (wired_instance echo_engine 1000 2000) /\
    remaining_grace_period f'
    = remaining_grace_period (wired_instance echo_engine 1000 2000).
Proof.
  assert (H : can_run (wired_instance echo_engine 1000 2000) 100).
  { apply wired_instance_can_run. unfold FRAMESIZE_NSAMPLES. lia. }
  split; [exact H|].
  apply (@short_block_gives_silence echo_engine
           (wired_instance echo_engine 1000 2000)
           (block_memory 1000 100 (F32.of_int 1)) 100 H).
  - reflexivity.
  - apply Nat.ltb_lt. reflexivity.
Defined.

(** X4.  A call with no samples changes nothing.  On an instance whose
    input ring buffer holds less than one frame (every instance between
    calls), [runFilter] with [n_samples = 0] returns the instance as it
    was and leaves every cell of the host's memory as it was, even when
    whole frames wait in the output ring buffer. *)
Theorem empty_call_is_a_no_op (E : Denoiser) (f : rnnoiseFilter E)
  (m : memory) :
  can_run f 0 ->
  in_bytes f < FRAMESIZE_BYTES ->
  exists m', runFilter f m 0 = Ok (f, m') /\ forall a, m' a = m a.
Proof.
  intros Hcan Hshort.
  destruct (can_run_inv Hcan)
    as (st0 & ib & ob & inp & out & vad & Hst & Hib & Hob & Hinp & Hout
        & Hvad & Hin & Hroom).
  destruct (@runFilter_ok E f m 0 st0 ib ob inp out vad
              Hst Hib Hob Hinp Hout Hvad Hin Hroom)
    as [m' [Hrun [Hrest _]]].
  unfold in_bytes in Hshort. rewrite Hib in Hshort.
  rewrite Nat.mul_0_r, Nat.add_0_r in Hrun.
  rewrite (Nat.div_small _ _ Hshort) in Hrun.
  cbn [seq flat_map Nat.mul firstn skipn engine_state grace_after load_n map]
    in Hrun.
  rewrite !app_nil_r, Nat.min_0_r in Hrun. cbn [skipn] in Hrun.
  rewrite !ring_eta in Hrun.
  exists m'. split.
  - rewrite Hrun. f_equal. f_equal.
    destruct f as [s i o g z v p q]. cbn in *. now subst.
  - intros a. rewrite Hrest by lia. reflexivity.
Qed.

Lemma empty_call_is_a_no_op_witness :
  can_run (wired_instance echo_engine 1000 2000) 0 /\
  exists m',
    runFilter (wired_instance echo_engine 1000 2000)
      (block_memory 1000 1 (F32.of_int 1)) 0
    = Ok (wired_instance echo_engine 1000 2000, m') /\
    forall a, m' a = block_memory 1000 1 (F32.of_int 1) a.
Proof.
  assert (H : can_run (wired_instance echo_engine 1000 2000) 0) by
    (apply wired_instance_can_run; lia).
  split; [exact H|].
  apply (@empty_call_is_a_no_op echo_engine
           (wired_instance echo_engine 1000 2000)
           (block_memory 1000 1 (F32.of_int 1)) H).
  apply Nat.ltb_lt. reflexivity.
Defined.

Lemma empty_ring_cells (rb : ringbuf_t) :
  ringbuf_bytes_used rb = 0 -> rb_cells rb = [].
Proof.
  unfold ringbuf_bytes_used, sizeof_float. intros H.
  destruct (rb_cells rb) as [|x l]; [reflexivity|cbn [length] in H; lia].
Qed.

(** X5.  A host whose blocks are whole frames gets its audio back in the
    same call.  With both ring buffers empty, a call of [k] frames runs the
    frame loop on exactly the scaled input block, returns the [k] gated
    frames of this very call (divided by 32767) without any padding, and
    leaves both ring buffers empty again. *)
Theorem aligned_call_has_no_latency (E : Denoiser) (f : rnnoiseFilter E)
  (m : memory) (k : nat) :
  can_run f (k * FRAMESIZE_NSAMPLES) ->
  in_bytes f = 0 ->
  out_bytes f = 0 ->
  exists f' m' inp out vad ob st1 g1 ob1,
    runFilter f m (k * FRAMESIZE_NSAMPLES) = Ok (f', m') /\
    m_pfInput f = Some inp /\ m_pfOutput f = Some out /\
    m_pfVAD f = Some vad /\ out_buf f = Some ob /\
    process_frames (F32.div (m vad) (F32.of_int 100))
      (map (fun x => F32.mul x (F32.of_int 32767))
         (load_n m inp (k * FRAMESIZE_NSAMPLES)))
      k (st f, remaining_grace_period f, ob) = Ok (st1, g1, ob1) /\
    st f' = st1 /\ remaining_grace_period f' = g1 /\
    (forall i, i < k * FRAMESIZE_NSAMPLES ->
       m' (out + i)
       = F32.div (nth i (rb_cells ob1) F32.zero) (F32.of_int 32767)) /\
    in_bytes f' = 0 /\ out_bytes f' = 0.
Proof.
  intros Hcan Hin0 Hout0.
  destruct (can_run_inv Hcan)
    as (st0 & ib & ob & inp & out & vad & Hst & Hib & Hob & Hinp & Hout
        & Hvad & Hin & Hroom).
  destruct (@runFilter_ok E f m (k * FRAMESIZE_NSAMPLES) st0 ib ob inp out vad
              Hst Hib Hob Hinp Hout Hvad Hin Hroom)
    as [m' [Hrun [_ Hblock]]].
  unfold in_bytes in Hin0. rewrite Hib in Hin0.
  unfold out_bytes in Hout0. rewrite Hob in Hout0.
  pose proof (empty_ring_cells _ Hin0) as Hci.
  pose proof (empty_ring_cells _ Hout0) as Hco.
  assert (Hnf : (ringbuf_bytes_used ib
                 + sizeof_float * (k * FRAMESIZE_NSAMPLES)) / FRAMESIZE_BYTES
                = k).
  { rewrite Hin0. sizes. lia. }
  rewrite Hnf in Hrun, Hblock, Hroom.
  rewrite Hci, Hco, load_n_scale_input in Hrun, Hblock.
  cbn [app] in Hrun, Hblock.
  rewrite firstn_all2 in Hrun, Hblock
    by (rewrite length_map, load_n_length; lia).
  set (th := F32.div (m vad) (F32.of_int 100)) in *.
  set (L := map (fun x => F32.mul x (F32.of_int 32767))
              (load_n m inp (k * FRAMESIZE_NSAMPLES))) in *.
  set (G := flat_map (gated E th st0 L (remaining_grace_period f)) (seq 0 k))
    in *.
  assert (HG : length G = k * FRAMESIZE_NSAMPLES)
    by (unfold G; apply gated_flat_length).
  assert (Hsa : samples_avail {| rb_capacity := rb_capacity ob; rb_cells := G |}
                = k * FRAMESIZE_NSAMPLES).
  { unfold samples_avail, ringbuf_bytes_used. cbn [rb_cells]. rewrite HG.
    sizes. lia. }
  rewrite Hsa in Hrun, Hblock.
  rewrite Nat.min_id in Hrun. rewrite Nat.sub_diag in Hblock.
  cbn [repeat app] in Hblock.
  eexists _, m', inp, out, vad, ob, _, _, _.
  split; [exact Hrun|].
  split; [exact Hinp|]. split; [exact Hout|]. split; [exact Hvad|].
  split; [exact Hob|].
  split.
  { rewrite Hst. rewrite process_frames_trace by exact Hroom.
    rewrite Hco. cbn [app]. fold G. reflexivity. }
  cbn [st remaining_grace_period rb_cells].
  split; [reflexivity|]. split; [reflexivity|].
  split; [exact Hblock|].
  unfold in_bytes, out_bytes, ringbuf_bytes_used. cbn [in_buf out_buf rb_cells].
  assert (HL : @length float L = k * FRAMESIZE_NSAMPLES)
    by (unfold L; now rewrite length_map, load_n_length).
  rewrite !length_skipn, HG, HL. lia.
Qed.

Lemma aligned_call_has_no_latency_witness :
  can_run (wired_instance echo_engine 1000 2000) (2 * FRAMESIZE_NSAMPLES) /\
  exists f' m' inp out vad ob st1 g1 ob1,
    runFilter (wired_instance echo_engine 1000 2000)
      (block_memory 1000 960 (F32.of_int 1)) (2 * FRAMESIZE_NSAMPLES)
    = Ok (f', m') /\
    m_pfInput (wired_instance echo_engine 1000 2000) = Some inp /\
    m_pfOutput (wired_instance echo_engine 1000 2000) = Some out /\
    m_pfVAD (wired_instance echo_engine 1000 2000) = Some vad /\
    out_buf (wired_instance echo_engine 1000 2000) = Some ob /\
    process_frames
      (F32.div (block_memory 1000 960 (F32.of_int 1) vad) (F32.of_int 100))
      (map (fun x => F32.mul x (F32.of_int 32767))
         (load_n (block_memory 1000 960 (F32.of_int 1)) inp
            (2 * FRAMESIZE_NSAMPLES)))
      2 (st (wired_instance echo_engine 1000 2000),
         remaining_grace_period (wired_instance echo_engine 1000 2000), ob)
    = Ok (st1, g1, ob1) /\
    st f' = st1 /\ remaining_grace_period f' = g1 /\
    (forall i, i < 2 * FRAMESIZE_NSAMPLES ->
       m' (out + i)
       = F32.div (nth i (rb_cells ob1) F32.zero) (F32.of_int 32767)) /\
    in_bytes f' = 0 /\ out_bytes f' = 0.
Proof.
  assert (H : can_run (wired_instance echo_engine 1000 2000)
                (2 * FRAMESIZE_NSAMPLES)) by
    (apply wired_instance_can_run; lia).
  split; [exact H|].
  apply (@aligned_call_has_no_latency echo_engine
           (wired_instance echo_engine 1000 2000)
           (block_memory 1000 960 (F32.of_int 1)) 2 H); reflexivity.
Defined.

(* ===================================================================== *)
(** ** Latency and the order of samples over many calls *)
(* ===================================================================== *)

(** One call adds its padding to the backlog, and nothing else. *)
Lemma run_adds_padding (E : Denoiser) (f f' : rnnoiseFilter E)
  (m m' : memory) (n : nat) :
  runFilter f m n = Ok (f', m') ->
  in_bytes f' + out_bytes f'
  = in_bytes f + out_bytes f + sizeof_float * call_padding f n.
Proof.
  intros Hrun. unfold call_padding, frames_ready.
  apply runFilter_inv in Hrun.
  destruct Hrun as (inp & out & vad & ib & ob & sto1 & g1 & ob1 & ob2 &
                    _ & _ & _ & Hib & Hob & _ & Hloop & Hdrain & ->).
  apply process_frames_size in Hloop. destruct Hloop as (_ & Hlen & _).
  destruct (drain_output_ok ob1 (scale_input m inp n) out n)
    as [m'' [Heq _]].
  rewrite Heq in Hdrain. clear Heq. apply Ok_eq in Hdrain.
  apply (f_equal fst) in Hdrain. cbn [fst] in Hdrain. subst ob2.
  unfold in_bytes, out_bytes. rewrite Hib, Hob.
  cbn [in_buf out_buf]. unfold samples_avail, ringbuf_bytes_used in *.
  cbn [rb_cells]. rewrite !length_skipn, length_app, load_n_length, Hlen.
  generalize (length (rb_cells ib)) (length (rb_cells ob)).
  clear. intros a b. sizes. lia.
Qed.

(** X6.  The latency of an instance is the padding it has put out.  Over
    any sequence of calls since the instance was created, the bytes that
    wait in the two ring buffers are exactly the zero samples that the
    calls have put in front of their outputs ([sizeof_float] bytes each).
    So the padding adds up to less than two frames: in the whole life of
    an instance fewer than 960 samples of silence are inserted into the
    stream, however the block lengths vary. *)
Theorem latency_is_padding (E : Denoiser) (a : allocations) (rate : N)
  (f0 f : rnnoiseFilter E) (z : nat) :
  instantiateSimpleFilter E a rate = Some f0 ->
  padded f0 z f ->
  sizeof_float * z = in_bytes f + out_bytes f /\
  z < 2 * FRAMESIZE_NSAMPLES.
Proof.
  intros Hnew Hpad.
  assert (Heq : sizeof_float * z = in_bytes f + out_bytes f).
  { induction Hpad as [|z f Port loc _ IH|z f f' m m' n _ IH Hrun].
    - destruct (@instantiate_inv _ _ _ _ Hnew) as (_ & _ & _ & Hin & Hout).
      unfold in_bytes, out_bytes. rewrite Hin, Hout. unfold ringbuf_new.
      destruct (alloc_in_buf a); destruct (alloc_out_buf a);
        unfold ringbuf_bytes_used; cbn [rb_cells length]; lia.
    - unfold in_bytes, out_bytes in *.
      destruct (connect_keeps f Port loc) as (_ & -> & -> & _). exact IH.
    - rewrite (@run_adds_padding E f f' m m' n Hrun). lia. }
  split; [exact Heq|].
  assert (Hreach : reachable f0 f).
  { clear Heq. induction Hpad as [|z f Port loc _ IH|z f f' m m' n _ IH Hrun].
    - apply reach_start.
    - now apply reach_connect.
    - eapply reach_run; eassumption. }
  assert (Hback : in_bytes f + out_bytes f < 2 * FRAMESIZE_BYTES).
  { clear Heq Hpad.
    induction Hreach as [|f Port loc _ IH|f f' m m' n _ IH Hrun].
    - destruct (@instantiate_inv _ _ _ _ Hnew) as (_ & _ & _ & Hin & Hout).
      unfold in_bytes, out_bytes. rewrite Hin, Hout. unfold ringbuf_new.
      destruct (alloc_in_buf a); destruct (alloc_out_buf a);
        unfold ringbuf_bytes_used; cbn [rb_cells length]; sizes; lia.
    - unfold in_bytes, out_bytes in *.
      destruct (connect_keeps f Port loc) as (_ & -> & -> & _). exact IH.
    - apply (@run_keeps_backlog E f f' m m' n Hrun IH). }
  revert Heq Hback. sizes. lia.
Qed.

Lemma latency_is_padding_witness :
  sizeof_float * (0 + call_padding (wired_instance echo_engine 1 101) 100)
  = in_bytes
      (instance_after (wired_instance echo_engine 1 101)
         (runFilter (wired_instance echo_engine 1 101)
            (block_memory 1 100 (F32.of_int 1)) 100))
    + out_bytes
        (instance_after (wired_instance echo_engine 1 101)
           (runFilter (wired_instance echo_engine 1 101)
              (block_memory 1 100 (F32.of_int 1)) 100)) /\
  0 + call_padding (wired_instance echo_engine 1 101) 100
  < 2 * FRAMESIZE_NSAMPLES.
Proof.
  apply (@latency_is_padding echo_engine all_ok 48000%N
           (new_instance echo_engine)).
  - reflexivity.
  - apply padded_run
      with (m := block_memory 1 100 (F32.of_int 1))
           (m' := memory_after (block_memory 1 100 (F32.of_int 1))
                    (runFilter (wired_instance echo_engine 1 101)
                       (block_memory 1 100 (F32.of_int 1)) 100)).
    + unfold wired_instance. repeat apply padded_connect. apply padded_start.
    + apply run_result. vm_compute. reflexivity.
Defined.

(** The padding of a call is silence: its first [call_padding] output
    samples are zero. *)
Lemma padding_is_silence (E : Denoiser) (f : rnnoiseFilter E) (m : memory)
  (n : nat) :
  can_run f n ->
  exists f' m' out,
    runFilter f m n = Ok (f', m') /\ m_pfOutput f = Some out /\
    forall i, i < call_padding f n -> m' (out + i) = F32.zero.
Proof.
  intros Hcan.
  destruct (can_run_inv Hcan)
    as (st0 & ib & ob & inp & out & vad & Hst & Hib & Hob & Hinp & Hout
        & Hvad & Hin & Hroom).
  destruct (@runFilter_ok E f m n st0 ib ob inp out vad
              Hst Hib Hob Hinp Hout Hvad Hin Hroom)
    as [m' [Hrun [_ Hblock]]].
  eexists _, m', out. split; [exact Hrun|]. split; [exact Hout|].
  intros i Hi.
  assert (Hpad : call_padding f n
                 = n - samples_avail
                         {| rb_capacity := rb_capacity ob;
                            rb_cells :=
                              rb_cells ob
                              ++ flat_map
                                   (gated E (F32.div (m vad) (F32.of_int 100))
                                      st0
                                      (firstn
                                         ((ringbuf_bytes_used ib
                                           + sizeof_float * n)
                                          / FRAMESIZE_BYTES
                                          * FRAMESIZE_NSAMPLES)
                                         (rb_cells ib
                                          ++ load_n (scale_input m inp n)
                                               inp n))
                                      (remaining_grace_period f))
                                   (seq 0
                                      ((ringbuf_bytes_used ib
                                        + sizeof_float * n)
                                       / FRAMESIZE_BYTES)) |}).
  { unfold call_padding, frames_ready, in_bytes, out_bytes, samples_avail.
    rewrite Hib, Hob. unfold ringbuf_bytes_used at 3. cbn [rb_cells].
    rewrite length_app, gated_flat_length.
    unfold ringbuf_bytes_used. sizes. f_equal. f_equal. f_equal. lia. }
  rewrite Hpad in Hi. rewrite Hblock by lia.
  rewrite app_nth1 by (now rewrite repeat_length).
  rewrite nth_repeat. apply rescaled_zero.
Qed.

(** X7.  No input sample is lost, repeated or reordered on its way to the
    engine.  At any moment in the life of an instance, the frames that the
    engine has been run on, put end to end, followed by the floats that
    wait in the input ring buffer, are the input samples of all calls so
    far, each multiplied by 32767, in the order in which the host gave
    them. *)
Theorem input_stream_is_conserved (E : Denoiser) (a : allocations) (rate : N)
  (f0 f : rnnoiseFilter (recording E)) (xs : list float) :
  instantiateSimpleFilter (recording E) a rate = Some f0 ->
  fed f0 xs f ->
  concat (recorded f) ++ in_cells f
  = map (fun x => F32.mul x (F32.of_int 32767)) xs.
Proof.
  intros Hnew Hfed.
  induction Hfed as [|xs f Port loc _ IH|xs f f' m m' n inp _ IH Hinp Hrun].
  - destruct (@instantiate_inv _ _ _ _ Hnew) as (_ & _ & Hst & Hin & _).
    unfold recorded, in_cells. rewrite Hst, Hin. unfold ringbuf_new.
    destruct (alloc_engine a); destruct (alloc_in_buf a); reflexivity.
  - unfold recorded, in_cells in *.
    destruct (connect_keeps f Port loc) as (-> & -> & _). exact IH.
  - apply runFilter_inv in Hrun.
    destruct Hrun as (inp' & out & vad & ib & ob & sto1 & g1 & ob1 & ob2 &
                      Hinp' & _ & _ & Hib & _ & _ & Hloop & _ & ->).
    rewrite Hinp in Hinp'. apply Some_eq in Hinp'. subst inp'.
    rewrite load_n_scale_input in Hloop |- *.
    unfold float in *. rewrite map_app, <- IH.
    unfold recorded, in_cells in *.
    rewrite Hib. cbn [st in_buf rb_cells].
    set (q := rb_cells ib
              ++ map (fun x => F32.mul x (F32.of_int 32767)) (load_n m inp n))
      in *.
    apply process_frames_cases in Hloop.
    destruct Hloop as [(Hn0 & -> & _)|(s0 & Hs0 & _ & -> & _)].
    + rewrite Hn0. cbn [Nat.mul skipn]. unfold q. now rewrite app_assoc.
    + rewrite Hs0. rewrite recording_log, concat_app, frames_concat.
      rewrite firstn_firstn, Nat.min_id, <- !app_assoc, firstn_skipn.
      reflexivity.
Qed.

Lemma input_stream_is_conserved_witness :
  concat
    (recorded
       (instance_after (wired_instance (recording echo_engine) 1 501)
          (runFilter (wired_instance (recording echo_engine) 1 501)
             (block_memory 1 500 (F32.of_int 1)) 500)))
  ++ in_cells
       (instance_after (wired_instance (recording echo_engine) 1 501)
          (runFilter (wired_instance (recording echo_engine) 1 501)
             (block_memory 1 500 (F32.of_int 1)) 500))
  = map (fun x => F32.mul x (F32.of_int 32767))
      ([] ++ load_n (block_memory 1 500 (F32.of_int 1)) 1 500).
Proof.
  apply (@input_stream_is_conserved echo_engine all_ok 48000%N
           (new_instance (recording echo_engine))).
  - reflexivity.
  - apply fed_run
      with (f := wired_instance (recording echo_engine) 1 501)
           (m' := memory_after (block_memory 1 500 (F32.of_int 1))
                    (runFilter (wired_instance (recording echo_engine) 1 501)
                       (block_memory 1 500 (F32.of_int 1)) 500)).
    + unfold wired_instance. repeat apply fed_connect. apply fed_start.
    + reflexivity.
    + apply run_result. vm_compute. reflexivity.
Defined.

(* ===================================================================== *)
(** ** The gate as a function of the speech frames *)
(* ===================================================================== *)

Section GateExact.

Variable E : Denoiser.
Variable vad_thresh : float.
Variable st0 : DenoiseState E.
Variable tmpin : list float.
Variable g0 : Z.

Hypothesis Hg0 : (g0 <= VAD_GRACE_PERIOD)%Z.

Local Notation "'loud' j" :=
  (F32.gt (speech_prob E st0 tmpin j) vad_thresh = true) (at level 10).
Local Notation "'grace'" := (grace_after E vad_thresh st0 tmpin g0).

Lemma grace_after_upper (k : nat) : (grace k <= VAD_GRACE_PERIOD)%Z.
Proof.
  induction k as [|k IH]; [exact Hg0|].
  cbn [grace_after]. unfold reopen, VAD_GRACE_PERIOD in *.
  destruct (F32.gt (speech_prob E st0 tmpin k) vad_thresh);
    destruct (Z.leb_spec 0 20); destruct (Z.leb_spec 0 (grace k)); lia.
Qed.

(** The counter after [k] frames is at least [t >= 0] exactly when the
    counter at the start, or the reset by some earlier speech frame, still
    covers [t] after the frames since. *)
Lemma grace_after_exact (k : nat) (t : Z) :
  (0 <= t)%Z ->
  (t <= grace k)%Z <->
  (t <= g0 - Z.of_nat k)%Z \/
  exists j, j < k /\ loud j /\
            (t <= VAD_GRACE_PERIOD - (Z.of_nat k - Z.of_nat j))%Z.
Proof.
  revert t. induction k as [|k IH]; intros t Ht.
  - cbn [grace_after]. split.
    + intros H. left. lia.
    + intros [H|(j & Hj & _)]; lia.
  - cbn [grace_after]. unfold reopen.
    destruct (F32.gt (speech_prob E st0 tmpin k) vad_thresh) eqn:Hk.
    + unfold VAD_GRACE_PERIOD in *.
      change (0 <=? 20)%Z with true. cbv iota. split.
      * intros H. right. exists k. split; [lia|split; [exact Hk|lia]].
      * intros [H|(j & Hj & _ & H)]; lia.
    + specialize (IH (t + 1)%Z ltac:(lia)).
      pose proof (grace_after_upper k) as Hup.
      split.
      * intros H.
        assert (Hc : (t + 1 <= grace k)%Z)
          by (destruct (Z.leb_spec 0 (grace k)); lia).
        apply IH in Hc. destruct Hc as [Hc|(j & Hj & Hl & Hc)].
        -- left. lia.
        -- right. exists j. repeat split; [lia|exact Hl|lia].
      * intros H.
        assert (Hc : (t + 1 <= grace k)%Z).
        { apply IH. destruct H as [H|(j & Hj & Hl & H)].
          - left. lia.
          - right. exists j.
            assert (j <> k) by (intros ->; congruence).
            repeat split; [lia|exact Hl|lia]. }
        destruct (Z.leb_spec 0 (grace k)); lia.
Qed.

(** Frame [k] is passed exactly when the counter at the start covers it or
    one of the frames [k - 20 .. k] is a speech frame. *)
Lemma passes_exact (k : nat) :
  passes E vad_thresh st0 tmpin g0 k = true <->
  (Z.of_nat k <= g0)%Z \/ exists j, j <= k /\ k - j <= 20 /\ loud j.
Proof.
  unfold passes, reopen.
  destruct (F32.gt (speech_prob E st0 tmpin k) vad_thresh) eqn:Hk.
  - split; [|reflexivity].
    intros _. right. exists k. repeat split; [lia|lia|exact Hk].
  - rewrite Z.leb_le, (grace_after_exact k (t := 0)) by lia.
    unfold VAD_GRACE_PERIOD. split.
    + intros [H|(j & Hj & Hl & H)]; [left; lia|].
      right. exists j. repeat split; [lia|lia|exact Hl].
    + intros [H|(j & Hj & Hd & Hl)]; [left; lia|].
      assert (j <> k) by (intros ->; congruence).
      right. exists j. repeat split; [lia|exact Hl|lia].
Qed.

End GateExact.

(** X8.  The gate, exactly.  In a frame loop that starts with a counter of
    at most [VAD_GRACE_PERIOD], frame [k] is pushed as the engine denoised
    it if the counter at the start covers it ([k <= g0]) or if one of the
    21 frames [k - 20 .. k] has a speech probability above the threshold;
    otherwise it is pushed as 480 zeros.  Speech frames before [k - 20] and
    all later frames have no influence on frame [k]. *)
Theorem gate_follows_recent_speech (E : Denoiser) (vad_thresh : float)
  (tmpin : list float) (n : nat) (st0 : DenoiseState E) (g0 : Z)
  (ob : ringbuf_t) :
  n * FRAMESIZE_BYTES <= ringbuf_bytes_free ob ->
  (g0 <= VAD_GRACE_PERIOD)%Z ->
  exists st1 g1 ob1,
    process_frames vad_thresh tmpin n (Some st0, g0, ob) = Ok (st1, g1, ob1) /\
    forall k, k < n ->
      ((Z.of_nat k <= g0)%Z \/
       (exists j, j <= k /\ k - j <= 20 /\
          F32.gt (speech_prob E st0 tmpin j) vad_thresh = true) ->
       emitted ob ob1 k = denoised E st0 tmpin k) /\
      (~ ((Z.of_nat k <= g0)%Z \/
          (exists j, j <= k /\ k - j <= 20 /\
             F32.gt (speech_prob E st0 tmpin j) vad_thresh = true)) ->
       emitted ob ob1 k = repeat F32.zero FRAMESIZE_NSAMPLES).
Proof.
  intros Hroom Hg0.
  eexists _, _, _. split; [apply process_frames_trace; exact Hroom|].
  intros k Hk. rewrite emitted_gated by exact Hk. unfold gated.
  pose proof (@passes_exact E vad_thresh st0 tmpin g0 Hg0 k) as Hex.
  destruct (passes E vad_thresh st0 tmpin g0 k).
  - split; [reflexivity|]. intros Hno. exfalso. apply Hno. now apply Hex.
  - split; [|reflexivity]. intros Hyes. apply Hex in Hyes. discriminate.
Qed.

Lemma gate_follows_recent_speech_witness :
  exists st1 g1 ob1,
    process_frames (E := echo_engine) half burst_then_quiet 26
      (Some 0, (-1)%Z, empty_ring) = Ok (st1, g1, ob1) /\
    forall k, k < 26 ->
      ((Z.of_nat k <= -1)%Z \/
       (exists j, j <= k /\ k - j <= 20 /\
          F32.gt (speech_prob echo_engine 0 burst_then_quiet j) half = true) ->
       emitted empty_ring ob1 k = denoised echo_engine 0 burst_then_quiet k) /\
      (~ ((Z.of_nat k <= -1)%Z \/
          (exists j, j <= k /\ k - j <= 20 /\
             F32.gt (speech_prob echo_engine 0 burst_then_quiet j) half
             = true)) ->
       emitted empty_ring ob1 k = repeat F32.zero FRAMESIZE_NSAMPLES).
Proof.
  apply (@gate_follows_recent_speech echo_engine half burst_then_quiet 26 0
           (-1)%Z empty_ring).
  - apply Nat.leb_le. vm_compute. reflexivity.
  - unfold VAD_GRACE_PERIOD. lia.
Defined.

(** X9.  The grace counter stays in [-1, VAD_GRACE_PERIOD].  In every
    state that an instance reaches after [instantiateSimpleFilter], over
    any calls and re-wirings, [remaining_grace_period] is at least [-1] and
    at most 20: the [int32_t] never comes near its limits, and a closed
    gate is always exactly at [-1]. *)
Theorem grace_counter_range (E : Denoiser) (a : allocations) (rate : N)
  (f0 f : rnnoiseFilter E) :
  instantiateSimpleFilter E a rate = Some f0 ->
  reachable f0 f ->
  (-1 <= remaining_grace_period f <= VAD_GRACE_PERIOD)%Z.
Proof.
  intros Hnew Hreach.
  induction Hreach as [|f Port loc _ IH|f f' m m' n _ IH Hrun].
  - destruct (@instantiate_inv _ _ _ _ Hnew) as (_ & -> & _).
    unfold VAD_GRACE_PERIOD. lia.
  - destruct (connect_keeps f Port loc) as (_ & _ & _ & ->). exact IH.
  - apply runFilter_inv in Hrun.
    destruct Hrun as (inp & out & vad & ib & ob & sto1 & g1 & ob1 & ob2 &
                      _ & _ & _ & _ & _ & _ & Hloop & _ & ->).
    cbn [remaining_grace_period].
    apply process_frames_cases in Hloop.
    destruct Hloop as [(_ & _ & -> & _)|(s0 & _ & _ & _ & -> & _)];
      [exact IH|].
    split.
    + apply grace_after_floor. lia.
    + apply grace_after_upper. lia.
Qed.

Lemma grace_counter_range_witness :
  (-1 <= remaining_grace_period
           (instance_after (wired_instance echo_engine 10%nat 20%nat)
              (runFilter (wired_instance echo_engine 10%nat 20%nat)
                 (block_memory 10%nat 3%nat (F32.of_int 1)) 3%nat))
   <= VAD_GRACE_PERIOD)%Z.
Proof.
  apply (@grace_counter_range echo_engine all_ok 48000%N
           (new_instance echo_engine)).
  - reflexivity.
  - apply reach_run
      with (f := wired_instance echo_engine 10 20)
           (m := block_memory 10 3 (F32.of_int 1))
           (m' := memory_after (block_memory 10 3 (F32.of_int 1))
                    (runFilter (wired_instance echo_engine 10 20)
                       (block_memory 10 3 (F32.of_int 1)) 3))
           (n_samples := 3).
    + unfold wired_instance. repeat apply reach_connect. apply reach_start.
    + apply run_result. vm_compute. reflexivity.
Defined.

(** X10.  The ring-buffer contract is never breached.  An instance whose
    four allocations succeeded, with its three ports connected, can be
    called with any sequence of block lengths of up to 98 frames each, on
    any memory, re-wired at will between calls: every call finds room in
    both ring buffers and returns. *)
Theorem calls_never_fault (E : Denoiser) (a : allocations) (rate : N)
  (f0 f : rnnoiseFilter E) (m : memory) (n : nat) :
  instantiateSimpleFilter E a rate = Some f0 ->
  alloc_in_buf a = true -> alloc_out_buf a = true -> alloc_engine a = true ->
  reachable f0 f ->
  m_pfVAD f <> None -> m_pfInput f <> None -> m_pfOutput f <> None ->
  n <= 98 * FRAMESIZE_NSAMPLES ->
  exists f' m', runFilter f m n = Ok (f', m').
Proof.
  intros Hnew Hai Hao Hae Hreach Hvad Hinp Hout Hn.
  assert (Hinv : (exists s, st f = Some s) /\
                 (exists ib ob,
                     in_buf f = Some ib /\ out_buf f = Some ob /\
                     rb_capacity ib = FRAMESIZE_BYTES * 100 /\
                     rb_capacity ob = FRAMESIZE_BYTES * 100) /\
                 in_bytes f + out_bytes f < 2 * FRAMESIZE_BYTES).
  { clear Hvad Hinp Hout.
    induction Hreach as [|f Port loc _ IH|f f' m0 m' n0 _ IH Hrun].
    - destruct (@instantiate_inv _ _ _ _ Hnew) as (_ & _ & Hst & Hin & Ho).
      rewrite Hai in Hin. rewrite Hao in Ho. rewrite Hae in Hst.
      unfold ringbuf_new in *.
      split; [eauto|]. split.
      + eexists _, _. split; [exact Hin|]. split; [exact Ho|].
        split; reflexivity.
      + unfold in_bytes, out_bytes. rewrite Hin, Ho.
        unfold ringbuf_bytes_used. cbn [rb_cells length]. sizes. lia.
    - destruct IH as ((s & Hs) & (ib & ob & Hib & Hob & Hci & Hco) & Hback).
      destruct (connect_keeps f Port loc) as (Hst' & Hi & Ho & _).
      split; [exists s; now rewrite Hst'|]. split.
      + exists ib, ob. rewrite Hi, Ho. tauto.
      + unfold in_bytes, out_bytes in *. now rewrite Hi, Ho.
    - destruct IH as ((s & Hs) & Hbufs & Hback).
      assert (Hh : healthy f).
      { split; [|split; assumption].
        destruct (@runFilter_inv E f f' m0 m' n0 Hrun)
          as (inp & out & vad & ib & ob & _ & _ & _ & _ &
              Hinp & Hout & Hvad & Hib & Hob & _).
        unfold wired. now rewrite Hs, Hib, Hob, Hvad, Hinp, Hout. }
      destruct (@run_keeps_healthy E f f' m0 m' n0 Hh Hrun)
        as (Hw & Hbufs' & Hback').
      split; [|split; assumption].
      unfold wired in Hw. destruct (st f') as [s'|]; [eauto|discriminate]. }
  destruct Hinv as ((s & Hs) & (ib & ob & Hib & Hob & Hci & Hco) & Hback).
  apply runFilter_runs. split.
  - unfold wired. rewrite Hs, Hib, Hob.
    destruct (m_pfVAD f); [|congruence].
    destruct (m_pfInput f); [|congruence].
    destruct (m_pfOutput f); [|congruence]. reflexivity.
  - revert Hback. unfold frames_ready, in_bytes, out_bytes.
    rewrite Hib, Hob. unfold ringbuf_bytes_free. rewrite Hci, Hco.
    generalize (ringbuf_bytes_used ib) (ringbuf_bytes_used ob).
    clear - Hn. intros x y Hback. sizes. lia.
Qed.

Lemma calls_never_fault_witness :
  exists f' m',
    runFilter (wired_instance echo_engine 1000 2000)
      (block_memory 1000 100 (F32.of_int 1)) 100 = Ok (f', m').
Proof.
  apply (@calls_never_fault echo_engine all_ok 48000%N
           (new_instance echo_engine) (wired_instance echo_engine 1000 2000)
           (block_memory 1000 100 (F32.of_int 1)) 100).
  - reflexivity.
  - reflexivity.
  - reflexivity.
  - reflexivity.
  - unfold wired_instance. repeat apply reach_connect. apply reach_start.
  - discriminate.
  - discriminate.
  - discriminate.
  - unfold FRAMESIZE_NSAMPLES. lia.
Defined.

(* ===================================================================== *)
(** ** The threshold *)
(* ===================================================================== *)




(** X12.  The frames of two calls go through the gate as the frames of one
    call would: the loop of lines 110-126 over the frames [t1 ++ t2] is the
    loop over [t1] followed by the loop over [t2] on the engine state, the
    counter and the output ring buffer that the first one left, faults
    included.  So how the host cuts the stream into blocks has no effect on
    which frames the gate passes. *)
Theorem gate_ignores_block_cuts (E : Denoiser) (vad_thresh : float)
  (t1 t2 : list float) (n1 n2 : nat) (s : gate_state E) :
  length t1 = n1 * FRAMESIZE_NSAMPLES ->
  process_frames vad_thresh (t1 ++ t2) (n1 + n2) s
  = (s1 <- process_frames vad_thresh t1 n1 s ;;
     process_frames vad_thresh t2 n2 s1).
Proof.
  intros Hlen. now apply process_frames_app.
Qed.

Lemma gate_ignores_block_cuts_witness :
  process_frames (E := echo_engine) half
    (repeat F32.zero 480 ++ burst_then_quiet) (1 + 26)
    (Some 0, 0%Z, empty_ring)
  = (s1 <- process_frames (E := echo_engine) half (repeat F32.zero 480) 1
             (Some 0, 0%Z, empty_ring) ;;
     process_frames half burst_then_quiet 26 s1).
Proof.
  apply (@gate_ignores_block_cuts echo_engine half (repeat F32.zero 480)
           burst_then_quiet 1 26 (Some 0, 0%Z, empty_ring)).
  apply repeat_length.
Defined.

(* ===================================================================== *)
(** ** The plugin descriptor *)
(* ===================================================================== *)

(** The port table that a completed load leaves behind. *)
Lemma load_port_table (a : Loader.load_allocations) (mc : Loader.machine)
  (i : nat) :
  Loader.a_descriptor a = true ->
  Loader.final (Loader.init a Loader.at_load) = Some mc ->
  Loader.port_flags mc i
  = nth_error
      [[Loader.LADSPA_PORT_INPUT; Loader.LADSPA_PORT_AUDIO];
       [Loader.LADSPA_PORT_OUTPUT; Loader.LADSPA_PORT_AUDIO];
       [Loader.LADSPA_PORT_INPUT; Loader.LADSPA_PORT_CONTROL]] i.
Proof.
  destruct a as [d l n m c pd pn nv ni no rh]. cbn.
  intros Hd H. subst d.
  destruct l, n, m, c, pd, pn, nv, ni, no, rh;
    vm_compute in H; try discriminate H;
    apply Some_eq in H; subst mc; reflexivity.
Qed.

(** X13.  Load followed by unload leaves no block allocated.  Whenever the
    load routine returns (the descriptor's [malloc] failed, or the three
    [calloc]s succeeded), whichever of the seven [strdup]s failed, the
    unload routine returns too and has then freed every block that the load
    routine allocated: [deleteDescriptor] frees a null string pointer
    without harm and frees each block exactly once. *)
Theorem load_then_unload_frees_every_block (a : Loader.load_allocations) :
  Loader.a_descriptor a = false \/
  (Loader.a_port_descriptors a = true /\ Loader.a_port_names a = true /\
   Loader.a_range_hints a = true) ->
  option_map Loader.heap
    (Loader.final
       (Loader.seq_bind (Loader.init a) (fun _ => Loader.fini)
          Loader.at_load))
  = Some [].
Proof.
  destruct a as [d l n m c pd pn nv ni no rh]. cbn.
  intros [H | (H1 & H2 & H3)]; subst.
  - reflexivity.
  - destruct d, l, n, m, c, nv, ni, no; vm_compute; reflexivity.
Qed.

Lemma load_then_unload_frees_every_block_witness :
  option_map Loader.heap
    (Loader.final
       (Loader.seq_bind (Loader.init Loader.no_strings)
          (fun _ => Loader.fini) Loader.at_load))
  = Some [].
Proof.
  apply (@load_then_unload_frees_every_block Loader.no_strings).
  right. repeat split; reflexivity.
Defined.

(** X14.  The load routine does not check its [calloc]s.  When the
    descriptor's [malloc] succeeds and one of the three [calloc]s returns
    null, the routine stores through the null array pointer (lines 178, 183
    or 190): it does not return, and no descriptor is ever published. *)
Theorem load_crashes_without_an_array (a : Loader.load_allocations) :
  Loader.a_descriptor a = true ->
  Loader.a_port_descriptors a = false \/ Loader.a_port_names a = false \/
  Loader.a_range_hints a = false ->
  Loader.init a Loader.at_load = Loader.Crash Loader.NullDereference.
Proof.
  destruct a as [d l n m c pd pn nv ni no rh]. cbn.
  intros Hd H. subst d.
  destruct l, n, m, c, pd, pn, nv, ni, no, rh;
    try (vm_compute; reflexivity);
    destruct H as [H | [H | H]]; discriminate H.
Qed.

Lemma load_crashes_without_an_array_witness :
  Loader.init Loader.no_port_names Loader.at_load
  = Loader.Crash Loader.NullDereference.
Proof.
  apply (@load_crashes_without_an_array Loader.no_port_names).
  - reflexivity.
  - right. left. reflexivity.
Defined.

(** X15.  The published descriptor is consistent.  When the load routine
    returns after a successful [malloc], [ladspa_descriptor(0)] points to a
    live descriptor whose [PortCount] is 3 and whose three port arrays
    ([PortDescriptors], [PortNames], [PortRangeHints]) are live blocks of
    exactly [PortCount] entries each, so a host that walks [PortCount]
    ports stays inside every array. *)
Theorem published_descriptor_matches_its_arrays
  (a : Loader.load_allocations) (mc : Loader.machine) :
  Loader.a_descriptor a = true ->
  Loader.final (Loader.init a Loader.at_load) = Some mc ->
  exists d,
    Loader.the_descriptor mc = Some d /\
    Loader.PortCount d = 3 /\
    Loader.array_length (Loader.PortDescriptors d) mc
    = Some (Loader.PortCount d) /\
    Loader.array_length (Loader.PortNames d) mc
    = Some (Loader.PortCount d) /\
    Loader.array_length (Loader.PortRangeHints d) mc
    = Some (Loader.PortCount d).
Proof.
  destruct a as [d l n m c pd pn nv ni no rh]. cbn.
  intros Hd H. subst d.
  destruct l, n, m, c, pd, pn, nv, ni, no, rh;
    vm_compute in H; try discriminate H;
    apply Some_eq in H; subst mc;
    eexists; repeat split; reflexivity.
Qed.

Lemma published_descriptor_matches_its_arrays_witness :
  exists d,
    Loader.the_descriptor (Loader.loaded Loader.no_strings) = Some d /\
    Loader.PortCount d = 3 /\
    Loader.array_length (Loader.PortDescriptors d)
      (Loader.loaded Loader.no_strings)
    = Some (Loader.PortCount d) /\
    Loader.array_length (Loader.PortNames d)
      (Loader.loaded Loader.no_strings)
    = Some (Loader.PortCount d) /\
    Loader.array_length (Loader.PortRangeHints d)
      (Loader.loaded Loader.no_strings)
    = Some (Loader.PortCount d).
Proof.
  apply (@published_descriptor_matches_its_arrays Loader.no_strings
           (Loader.loaded Loader.no_strings)); reflexivity.
Defined.

(** X16.  Which descriptor request is answered.  After a load routine that
    returned, [ladspa_descriptor(Index)] is non-null exactly when [Index]
    is 0 and the descriptor's [malloc] had succeeded; every other index,
    and every index after a failed [malloc], gives null. *)
Theorem descriptor_only_at_index_zero (a : Loader.load_allocations)
  (mc : Loader.machine) (Index : nat) :
  Loader.final (Loader.init a Loader.at_load) = Some mc ->
  Loader.ladspa_descriptor Index mc <> None <->
  Index = 0 /\ Loader.a_descriptor a = true.
Proof.
  destruct a as [d l n m c pd pn nv ni no rh]. cbn.
  intros H. destruct d.
  - destruct l, n, m, c, pd, pn, nv, ni, no, rh;
      vm_compute in H; try discriminate H;
      apply Some_eq in H; subst mc;
      (destruct Index as [|i]; cbn; split;
       [ intros _; split; reflexivity
       | intros _; discriminate
       | intros Hn; now elim Hn
       | intros [Hi _]; discriminate Hi ]).
  - vm_compute in H. apply Some_eq in H. subst mc.
    destruct Index as [|i]; cbn; split;
      [ intros Hn; now elim Hn
      | intros [_ Hd]; discriminate Hd
      | intros Hn; now elim Hn
      | intros [Hi _]; discriminate Hi ].
Qed.

Lemma descriptor_only_at_index_zero_witness :
  Loader.ladspa_descriptor 0 (Loader.loaded Loader.all_allocated) <> None <->
  0 = 0 /\ Loader.a_descriptor Loader.all_allocated = true.
Proof.
  apply (@descriptor_only_at_index_zero Loader.all_allocated
           (Loader.loaded Loader.all_allocated) 0).
  reflexivity.
Defined.

(** X17.  The port table agrees with [connect_port].  After a load routine
    that returned with a descriptor, a port index inside the table is
    declared as the kind of port that [connectPortToSimpleFilter] binds for
    that index (control input: the threshold pointer; audio input: the
    input pointer; audio output: the output pointer), and a port index
    outside the table is one that [connectPortToSimpleFilter] ignores. *)
Theorem port_table_agrees_with_connect (a : Loader.load_allocations)
  (mc : Loader.machine) (E : Denoiser) (f : rnnoiseFilter E) (Port : nat)
  (DataLocation : addr) :
  Loader.a_descriptor a = true ->
  Loader.final (Loader.init a Loader.at_load) = Some mc ->
  match Loader.port_flags mc Port with
  | Some flags =>
      (flags = [Loader.LADSPA_PORT_INPUT; Loader.LADSPA_PORT_CONTROL] /\
       m_pfVAD (connectPortToSimpleFilter f Port DataLocation)
       = Some DataLocation) \/
      (flags = [Loader.LADSPA_PORT_INPUT; Loader.LADSPA_PORT_AUDIO] /\
       m_pfInput (connectPortToSimpleFilter f Port DataLocation)
       = Some DataLocation) \/
      (flags = [Loader.LADSPA_PORT_OUTPUT; Loader.LADSPA_PORT_AUDIO] /\
       m_pfOutput (connectPortToSimpleFilter f Port DataLocation)
       = Some DataLocation)
  | None => connectPortToSimpleFilter f Port DataLocation = f
  end.
Proof.
  intros Hd H. rewrite (@load_port_table a mc Port Hd H).
  destruct Port as [|[|[|p]]]; cbn [nth_error].
  - right. left. split; reflexivity.
  - right. right. split; reflexivity.
  - left. split; reflexivity.
  - destruct p; reflexivity.
Qed.

Lemma port_table_agrees_with_connect_witness :
  match Loader.port_flags (Loader.loaded Loader.all_allocated) SF_VAD with
  | Some flags =>
      (flags = [Loader.LADSPA_PORT_INPUT; Loader.LADSPA_PORT_CONTROL] /\
       m_pfVAD (connectPortToSimpleFilter (new_instance echo_engine) SF_VAD 7)
       = Some 7) \/
      (flags = [Loader.LADSPA_PORT_INPUT; Loader.LADSPA_PORT_AUDIO] /\
       m_pfInput
         (connectPortToSimpleFilter (new_instance echo_engine) SF_VAD 7)
       = Some 7) \/
      (flags = [Loader.LADSPA_PORT_OUTPUT; Loader.LADSPA_PORT_AUDIO] /\
       m_pfOutput
         (connectPortToSimpleFilter (new_instance echo_engine) SF_VAD 7)
       = Some 7)
  | None =>
      connectPortToSimpleFilter (new_instance echo_engine) SF_VAD 7
      = new_instance echo_engine
  end.
Proof.
  apply (@port_table_agrees_with_connect Loader.all_allocated
           (Loader.loaded Loader.all_allocated) echo_engine
           (new_instance echo_engine) SF_VAD 7); reflexivity.
Defined.
